(** * ChapterUp: a shallow embedding of [chapterup/main.py]

    ChapterUp uploads the images of a directory to Imgur as one album and
    keeps the access token in a small JSON file.  This development embeds
    the functions of [main.py] as Rocq functions over an explicit world
    (configuration file, directory tree, terminal, Imgur service) and
    proves the properties its specification states about them, and then
    further properties of the code: what a whole run reads, prints, sends
    and writes, and how it ends when something fails.

    Text.  A Python [str] that reaches the program from the command line,
    the terminal or the file system is a [string]: a sequence of 8-bit
    characters, read as the code points 0..255.  A [str] decoded from JSON
    can hold any code point (through [\uXXXX]) and is a [ustr], a list of
    code points.

    Python's standard library ([str], [pathlib], [json]) and [natsort] are
    embedded as far as the program uses them, following CPython 3.11 and
    natsort's default algorithm.

    The world.  The file system answers [exists], [is_dir], [is_file],
    [iterdir] and [absolute] as the world says and changes only where the
    program writes; the Imgur service answers every request as a function
    of the requests made so far.  Standard error (the progress bar of
    [tqdm], the traceback of an uncaught exception) is not part of the
    world; an uncaught exception shows as the outcome [Raise] and as exit
    status 1. *)

From Stdlib Require Import String Ascii List Bool NArith ZArith Arith Lia.
From Stdlib Require Import Permutation Sorted.
Import ListNotations.
Local Open Scope string_scope.

(* ================================================================= *)
(** ** Python's [str] methods used by the program *)

Module Text.

Definition code (c : ascii) : N := N_of_ascii c.

Definition between (lo hi : N) (c : ascii) : bool :=
  (N.leb lo (code c) && N.leb (code c) hi)%bool.

(** [str.isspace] on the code points 0..255: the ASCII blanks, the
    separators 0x1c..0x1f, NEL and the no-break space. *)
Definition isspace (c : ascii) : bool :=
  (between 9 13 c || between 28 32 c
   || N.eqb (code c) 133 || N.eqb (code c) 160)%bool.

Definition isdigit (c : ascii) : bool := between 48 57 c.

(** [str.lower] on one character: A-Z and the Latin-1 capitals
    (0xC0..0xDE without the multiplication sign) move up by 32. *)
Definition lower_char (c : ascii) : ascii :=
  if (between 65 90 c
      || (between 192 222 c && negb (N.eqb (code c) 215)))%bool
  then ascii_of_N (code c + 32)
  else c.

Fixpoint lower (s : string) : string :=
  match s with
  | EmptyString => EmptyString
  | String c r => String (lower_char c) (lower r)
  end.

Fixpoint lstrip (s : string) : string :=
  match s with
  | EmptyString => EmptyString
  | String c r => if isspace c then lstrip r else s
  end.

Fixpoint all_space (s : string) : bool :=
  match s with
  | EmptyString => true
  | String c r => (isspace c && all_space r)%bool
  end.

Fixpoint rstrip (s : string) : string :=
  match s with
  | EmptyString => EmptyString
  | String c r => if all_space s then EmptyString else String c (rstrip r)
  end.

Definition strip (s : string) : string := rstrip (lstrip s).

Definition startswith (s p : string) : bool := String.prefix p s.

(** [s.rfind(c)], with [None] for Python's [-1]. *)
Fixpoint rfind (c : ascii) (s : string) : option nat :=
  match s with
  | EmptyString => None
  | String a r =>
      match rfind c r with
      | Some i => Some (S i)
      | None => if Ascii.eqb a c then Some 0 else None
      end
  end.

(** [s[i:]] and [s[:i]]. *)
Fixpoint drop (i : nat) (s : string) : string :=
  match i, s with
  | O, _ => s
  | S j, String _ r => drop j r
  | S _, EmptyString => EmptyString
  end.

Fixpoint take (i : nat) (s : string) : string :=
  match i, s with
  | S j, String c r => String c (take j r)
  | _, _ => EmptyString
  end.

(** ['-' * n]. *)
Fixpoint repeat_char (c : ascii) (n : nat) : string :=
  match n with
  | O => EmptyString
  | S k => String c (repeat_char c k)
  end.

(** Decimal rendering of a number, as [str(n)] and [%d] do.  A number
    has no more decimal digits than binary ones, which bounds the loop. *)
Definition digit_char (n : N) : ascii := ascii_of_N (48 + n).

Fixpoint decimal_fuel (fuel : nat) (n : N) (acc : string) : string :=
  match fuel with
  | O => acc
  | S f =>
      let acc' := String (digit_char (n mod 10)) acc in
      if (n / 10 =? 0)%N then acc' else decimal_fuel f (n / 10) acc'
  end.

Definition decimal_N (n : N) : string :=
  decimal_fuel (S (N.size_nat n)) n EmptyString.

Definition decimal (n : nat) : string := decimal_N (N.of_nat n).

End Text.

(* ================================================================= *)
(** ** [pathlib]: the lexical part of a path *)

Module Pathlib.

(** A [Path] is modelled by its [str()].  [Path(s)] normalises the
    spelling of [s]; the world's file-system functions take the path as
    spelled on the command line, so [Path_new] keeps the string. *)
Definition Path := string.

Definition slash : ascii := "/"%char.
Definition dot : ascii := "."%char.

Fixpoint has_slash (p : string) : bool :=
  match p with
  | EmptyString => false
  | String c r => (Ascii.eqb c slash || has_slash r)%bool
  end.

(** [path.name]: the final component; in the [str()] of a path, which
    has no trailing slash, what stands behind the last slash. *)
Fixpoint name (p : Path) : string :=
  match p with
  | EmptyString => EmptyString
  | String c r => if has_slash p then name r else p
  end.

(** [path.suffix]:
    [i = name.rfind('.')]; [name[i:]] when [0 < i < len(name) - 1]. *)
Definition suffix (p : Path) : string :=
  let nm := name p in
  match Text.rfind dot nm with
  | Some i =>
      if ((0 <? i)%nat && (i <? String.length nm - 1)%nat)%bool
      then Text.drop i nm else EmptyString
  | None => EmptyString
  end.

(** [path.stem]: the name without that suffix. *)
Definition stem (p : Path) : string :=
  let nm := name p in
  match Text.rfind dot nm with
  | Some i =>
      if ((0 <? i)%nat && (i <? String.length nm - 1)%nat)%bool
      then Text.take i nm else nm
  | None => nm
  end.

End Pathlib.

(* ================================================================= *)
(** ** [natsort.natsorted] with the default algorithm

    [natsorted(seq)] is [sorted(seq, key=natsort_keygen())].  For a
    [Path] the key is computed from [str(path)] (natsort 7.1 and later):
    the string is split at its maximal runs of decimal digits, empty
    pieces are dropped, every digit run becomes an [int], an empty string
    is put in front of a leading number and between two adjacent numbers,
    and the pieces form a tuple.  Tuples compare as Python tuples do.
    The digits recognised here are [0-9]; natsort's Unicode normalisation
    and its non-ASCII digits concern characters above 127 only. *)

Module Natsort.

Inductive chunk : Type :=
| Txt (s : string)
| Num (n : N).

(** [re.split(r'(\d+)', s)] without the empty pieces: the maximal runs
    of digits and of non-digits, each tagged with its kind. *)
Fixpoint runs (s : string) : list (bool * string) :=
  match s with
  | EmptyString => []
  | String c r =>
      let d := Text.isdigit c in
      match runs r with
      | (d', run) :: rest =>
          if Bool.eqb d d' then (d, String c run) :: rest
          else (d, String c EmptyString) :: (d', run) :: rest
      | [] => [(d, String c EmptyString)]
      end
  end.

(** [int(run)] for a run of digits. *)
Fixpoint int_of_digits (acc : N) (s : string) : N :=
  match s with
  | EmptyString => acc
  | String c r => int_of_digits (acc * 10 + (Text.code c - 48)) r
  end.

Definition component_transform (r : bool * string) : chunk :=
  if fst r then Num (int_of_digits 0 (snd r)) else Txt (snd r).

Definition is_num (c : chunk) : bool :=
  match c with Num _ => true | Txt _ => false end.

Definition sep : chunk := Txt EmptyString.

Fixpoint sep_between (first : chunk) (rest : list chunk) : list chunk :=
  match rest with
  | [] => []
  | second :: rest' =>
      (if (is_num first && is_num second)%bool then [sep] else [])
        ++ second :: sep_between second rest'
  end.

Definition sep_inserter (l : list chunk) : list chunk :=
  match l with
  | [] => []
  | first :: rest =>
      (if is_num first then [sep] else []) ++ first :: sep_between first rest
  end.

Definition natsort_key (s : string) : list chunk :=
  sep_inserter (map component_transform (runs s)).

(** Python's comparison of sequences: the first position where the two
    differ decides; a proper prefix is smaller. *)
Fixpoint lex_compare {A : Type} (cmp : A -> A -> comparison)
         (l1 l2 : list A) : comparison :=
  match l1, l2 with
  | [], [] => Eq
  | [], _ :: _ => Lt
  | _ :: _, [] => Gt
  | a :: r1, b :: r2 =>
      match cmp a b with
      | Eq => lex_compare cmp r1 r2
      | c => c
      end
  end.

Definition char_compare (a b : ascii) : comparison :=
  N.compare (Text.code a) (Text.code b).

(** [str] against [str]: by code point. *)
Definition str_compare (s t : string) : comparison :=
  lex_compare char_compare (list_ascii_of_string s) (list_ascii_of_string t).

(** A text against a number raises [TypeError] in Python.  The keys of
    two strings never meet that case, since both alternate text, number,
    text, ... from a text ([natsort_key_alternates] below); the order
    chosen for it here is never used. *)
Definition chunk_compare (a b : chunk) : comparison :=
  match a, b with
  | Txt s, Txt t => str_compare s t
  | Num m, Num n => N.compare m n
  | Txt _, Num _ => Lt
  | Num _, Txt _ => Gt
  end.

Definition key_compare (k1 k2 : list chunk) : comparison :=
  lex_compare chunk_compare k1 k2.

(** Python's own [k1 < k2] on the two tuples, with [None] for the
    [TypeError] of a text compared with a number. *)
Fixpoint tuple_lt (k1 k2 : list chunk) : option bool :=
  match k1, k2 with
  | [], [] => Some false
  | [], _ :: _ => Some true
  | _ :: _, [] => Some false
  | Txt s :: r1, Txt t :: r2 =>
      match str_compare s t with
      | Eq => tuple_lt r1 r2
      | Lt => Some true
      | Gt => Some false
      end
  | Num m :: r1, Num n :: r2 =>
      match N.compare m n with
      | Eq => tuple_lt r1 r2
      | Lt => Some true
      | Gt => Some false
      end
  | _ :: _, _ :: _ => None
  end.

(** The chunks are, in turn, text and number; [expect_num] tells the
    kind of the first. *)
Fixpoint alternates (expect_num : bool) (k : list chunk) : bool :=
  match k with
  | [] => true
  | c :: r => (Bool.eqb (is_num c) expect_num
               && alternates (negb expect_num) r)%bool
  end.

(** [k1 < k2], the only comparison [sorted] uses. *)
Definition key_lt (k1 k2 : list chunk) : bool :=
  match key_compare k1 k2 with
  | Lt => true
  | _ => false
  end.

(** [sorted(seq, key=key)]: a stable sort.  [x] comes from the left of
    everything already in [l], so it stays in front of the elements it
    is not greater than. *)
Fixpoint insert_by {A K : Type} (key : A -> K) (lt : K -> K -> bool)
         (x : A) (l : list A) : list A :=
  match l with
  | [] => [x]
  | y :: ys =>
      if lt (key y) (key x) then y :: insert_by key lt x ys else x :: l
  end.

Definition sorted {A K : Type} (key : A -> K) (lt : K -> K -> bool)
           (l : list A) : list A :=
  fold_right (insert_by key lt) [] l.

Definition natsorted (seq : list string) : list string :=
  sorted natsort_key key_lt seq.

(** The order [natsorted] realises: [a] may stand before [b]. *)
Definition natural_le (a b : string) : Prop :=
  key_lt (natsort_key b) (natsort_key a) = false.


End Natsort.

(* ================================================================= *)
(** ** Python values and the [json] module

    [json.load] and [json.dump] with their default arguments, after
    CPython 3.11 ([json/decoder.py], [json/encoder.py] and the C scanner
    [_json] that the interpreter uses in their place). *)

Module Json.

(** A decoded [str]: a list of code points. *)
Definition ustr := list N.

Definition ustr_of (s : string) : ustr :=
  map Text.code (list_ascii_of_string s).

Definition ustr_eqb (a b : ustr) : bool :=
  if list_eq_dec N.eq_dec a b then true else false.

(** The Python values a JSON document decodes to.  An [int] is exact;
    a [float] is kept as the literal it was read from (the program never
    computes with one); a [dict] lists its items in insertion order. *)
#[warnings="-register-all"]
Inductive pyval : Type :=
| PNone
| PBool (b : bool)
| PInt (z : Z)
| PFloat (literal : string)
| PStr (s : ustr)
| PList (items : list pyval)
| PDict (items : list (ustr * pyval)).

(** [d[key] = value]: replaces the value of a key already present,
    appends a new key. *)
Fixpoint dict_set (key : ustr) (value : pyval) (d : list (ustr * pyval))
  : list (ustr * pyval) :=
  match d with
  | [] => [(key, value)]
  | (k, v) :: rest =>
      if ustr_eqb k key then (k, value) :: rest
      else (k, v) :: dict_set key value rest
  end.

Fixpoint dict_get (key : ustr) (d : list (ustr * pyval)) : option pyval :=
  match d with
  | [] => None
  | (k, v) :: rest => if ustr_eqb k key then Some v else dict_get key rest
  end.

(* --------------------------------------------------------------- *)
(** *** Decoding *)

Definition dquote : ascii := "034"%char.
Definition backslash : ascii := "092"%char.

(** What a scanner returns: a value and the text after it, or a
    [JSONDecodeError] with its message and the number of characters
    that remain at the reported position, or the end of the fuel. *)
Inductive scan (A : Type) : Type :=
| Found (a : A) (rest : string)
| Fail (msg : string) (remaining : nat)
| Exhausted.
Arguments Found {A} a rest.
Arguments Fail {A} msg remaining.
Arguments Exhausted {A}.

Definition is_ws (c : ascii) : bool :=
  (Ascii.eqb c " " || Ascii.eqb c "009" || Ascii.eqb c "010"
   || Ascii.eqb c "013")%bool.

Fixpoint skip_ws (s : string) : string :=
  match s with
  | EmptyString => EmptyString
  | String c r => if is_ws c then skip_ws r else s
  end.

Definition hex_value (c : ascii) : option N :=
  if Text.between 48 57 c then Some (Text.code c - 48)%N
  else if Text.between 97 102 c then Some (Text.code c - 87)%N
  else if Text.between 65 70 c then Some (Text.code c - 55)%N
  else None.

Definition hex4 (a b c d : ascii) : option N :=
  match hex_value a, hex_value b, hex_value c, hex_value d with
  | Some x, Some y, Some z, Some w => Some (((x * 16 + y) * 16 + z) * 16 + w)%N
  | _, _, _, _ => None
  end.

Definition high_surrogate (n : N) : bool :=
  (N.leb 55296 n && N.leb n 56319)%bool.
Definition low_surrogate (n : N) : bool :=
  (N.leb 56320 n && N.leb n 57343)%bool.
Definition join_surrogates (hi lo : N) : N :=
  (65536 + N.lor (N.shiftl (hi - 55296) 10) (lo - 56320))%N.

(** [BACKSLASH]: the one-letter escapes. *)
Definition backslash_escape (esc : ascii) : option N :=
  if Ascii.eqb esc dquote then Some 34%N
  else if Ascii.eqb esc backslash then Some 92%N
  else if Ascii.eqb esc "/" then Some 47%N
  else if Ascii.eqb esc "b" then Some 8%N
  else if Ascii.eqb esc "f" then Some 12%N
  else if Ascii.eqb esc "n" then Some 10%N
  else if Ascii.eqb esc "r" then Some 13%N
  else if Ascii.eqb esc "t" then Some 9%N
  else None.

Definition unterminated : string := "Unterminated string starting at".
Definition invalid_u : string := "Invalid \uXXXX escape".

(** [scanstring(s, end)], strict: [s] is the text after the opening
    quote and [begin] locates that quote.  A [\uXXXX] needs its four
    hexadecimal digits and one more character after them; a high
    surrogate followed by an escaped low surrogate is joined with it. *)
Fixpoint scanstring (begin : nat) (acc : ustr) (s : string) {struct s}
  : scan ustr :=
  match s with
  | EmptyString => Fail unterminated begin
  | String c r =>
      if Ascii.eqb c dquote then Found acc r
      else if Ascii.eqb c backslash then
        match r with
        | EmptyString => Fail unterminated begin
        | String esc r1 =>
            if Ascii.eqb esc "u" then
              match r1 with
              | String h1 (String h2 (String h3 (String h4 r2))) =>
                  match r2, hex4 h1 h2 h3 h4 with
                  | String x r2', Some uni =>
                      if high_surrogate uni then
                        match r2' with
                        | String u (String g1 (String g2 (String g3
                            (String g4 r3)))) =>
                            match r3 with
                            | String _ _ =>
                                if (Ascii.eqb x backslash
                                    && Ascii.eqb u "u")%bool
                                then
                                  match hex4 g1 g2 g3 g4 with
                                  | None =>
                                      Fail invalid_u (String.length r2')
                                  | Some uni2 =>
                                      if low_surrogate uni2
                                      then scanstring begin
                                             (acc ++ [join_surrogates
                                                        uni uni2])%list r3
                                      else scanstring begin
                                             (acc ++ [uni])%list r2
                                  end
                                else scanstring begin (acc ++ [uni])%list r2
                            | EmptyString =>
                                scanstring begin (acc ++ [uni])%list r2
                            end
                        | _ => scanstring begin (acc ++ [uni])%list r2
                        end
                      else scanstring begin (acc ++ [uni])%list r2
                  | _, _ => Fail invalid_u (String.length r)
                  end
              | _ => Fail invalid_u (String.length r)
              end
            else
              match backslash_escape esc with
              | Some ch => scanstring begin (acc ++ [ch])%list r1
              | None => Fail "Invalid \escape" (String.length s)
              end
        end
      else if N.leb (Text.code c) 31
      then Fail "Invalid control character at" (String.length s)
      else scanstring begin (acc ++ [Text.code c])%list r
  end.

(** Numbers: an optional minus sign; [0], or a digit 1-9 and further
    digits; optionally a point and digits; optionally [e] or [E], a sign
    and digits.  A part that is not complete is left unread. *)
Fixpoint span_digits (s : string) : string * string :=
  match s with
  | EmptyString => (EmptyString, EmptyString)
  | String c r =>
      if Text.isdigit c
      then let (d, rest) := span_digits r in (String c d, rest)
      else (EmptyString, s)
  end.

Definition match_integer (s : string) : option (string * string) :=
  match s with
  | String c r =>
      if Ascii.eqb c "0" then Some ("0", r)
      else if Text.between 49 57 c
      then let (d, rest) := span_digits r in Some (String c d, rest)
      else None
  | EmptyString => None
  end.

Definition match_frac (s : string) : string * string :=
  match s with
  | String c r =>
      if Ascii.eqb c "." then
        match span_digits r with
        | (EmptyString, _) => (EmptyString, s)
        | (d, rest) => (String c d, rest)
        end
      else (EmptyString, s)
  | EmptyString => (EmptyString, s)
  end.

Definition match_exp (s : string) : string * string :=
  match s with
  | String e r =>
      if (Ascii.eqb e "e" || Ascii.eqb e "E")%bool then
        let (sign, r1) :=
          match r with
          | String g r' =>
              if (Ascii.eqb g "-" || Ascii.eqb g "+")%bool
              then (String g EmptyString, r') else (EmptyString, r)
          | EmptyString => (EmptyString, r)
          end in
        match span_digits r1 with
        | (EmptyString, _) => (EmptyString, s)
        | (d, rest) => (String e (sign ++ d), rest)
        end
      else (EmptyString, s)
  | EmptyString => (EmptyString, s)
  end.

(** [int(digits)]. *)
Definition int_of (digits : string) : Z :=
  Z.of_N (Natsort.int_of_digits 0 digits).

Definition expecting_value : string := "Expecting value".

Definition match_number (s : string) : scan pyval :=
  let (neg, body) :=
    match s with
    | String c r => if Ascii.eqb c "-" then (true, r) else (false, s)
    | EmptyString => (false, s)
    end in
  match match_integer body with
  | None => Fail expecting_value (String.length s)
  | Some (integer, r1) =>
      let (frac, r2) := match_frac r1 in
      let (exp, r3) := match_exp r2 in
      match frac, exp with
      | EmptyString, EmptyString =>
          Found (PInt (if neg then - int_of integer else int_of integer)) r3
      | _, _ =>
          Found (PFloat ((if neg then "-" else "") ++ integer ++ frac ++ exp))
                r3
      end
  end.

Definition scan_map {A B : Type} (f : A -> B) (r : scan A) : scan B :=
  match r with
  | Found a rest => Found (f a) rest
  | Fail msg n => Fail msg n
  | Exhausted => Exhausted
  end.

(** The text behind a leading [c]: [s[end:end + 1] == c]. *)
Definition eat (c : ascii) (s : string) : option string :=
  match s with
  | String a r => if Ascii.eqb a c then Some r else None
  | EmptyString => None
  end.

(** [scan_once], [JSONObject] and [JSONArray].  [parse_object] and
    [parse_array] are the loops over the members, entered after the
    opening bracket and the white space behind it. *)
Fixpoint scan_once (fuel : nat) (s : string) {struct fuel} : scan pyval :=
  match fuel with
  | O => Exhausted
  | S f =>
      match s with
      | EmptyString => Fail expecting_value 0
      | String c r =>
          if Ascii.eqb c dquote
          then scan_map PStr (scanstring (String.length s) [] r)
          else if Ascii.eqb c "{" then
            match eat "}" (skip_ws r) with
            | Some r' => Found (PDict []) r'
            | None => parse_object f [] (skip_ws r)
            end
          else if Ascii.eqb c "[" then
            match eat "]" (skip_ws r) with
            | Some r' => Found (PList []) r'
            | None => parse_array f [] (skip_ws r)
            end
          else if String.prefix "null" s then Found PNone (Text.drop 4 s)
          else if String.prefix "true" s
          then Found (PBool true) (Text.drop 4 s)
          else if String.prefix "false" s
          then Found (PBool false) (Text.drop 5 s)
          else if String.prefix "NaN" s
          then Found (PFloat "NaN") (Text.drop 3 s)
          else if String.prefix "Infinity" s
          then Found (PFloat "Infinity") (Text.drop 8 s)
          else if String.prefix "-Infinity" s
          then Found (PFloat "-Infinity") (Text.drop 9 s)
          else match_number s
      end
  end

with parse_object (fuel : nat) (pairs : list (ustr * pyval)) (s : string)
     {struct fuel} : scan pyval :=
  match fuel with
  | O => Exhausted
  | S f =>
      match eat dquote s with
      | Some r =>
          match scanstring (String.length s) [] r with
          | Found key r1 =>
              match eat ":" (skip_ws r1) with
              | Some r3 =>
                  match scan_once f (skip_ws r3) with
                  | Found value r5 =>
                      let pairs' := dict_set key value pairs in
                      match eat "}" (skip_ws r5) with
                      | Some r7 => Found (PDict pairs') r7
                      | None =>
                          match eat "," (skip_ws r5) with
                          | Some r7 => parse_object f pairs' (skip_ws r7)
                          | None =>
                              Fail "Expecting ',' delimiter"
                                   (String.length (skip_ws r5))
                          end
                      end
                  | Fail msg n => Fail msg n
                  | Exhausted => Exhausted
                  end
              | None =>
                  Fail "Expecting ':' delimiter"
                       (String.length (skip_ws r1))
              end
          | Fail msg n => Fail msg n
          | Exhausted => Exhausted
          end
      | None =>
          Fail "Expecting property name enclosed in double quotes"
               (String.length s)
      end
  end

with parse_array (fuel : nat) (items : list pyval) (s : string)
     {struct fuel} : scan pyval :=
  match fuel with
  | O => Exhausted
  | S f =>
      match scan_once f s with
      | Found value r1 =>
          let items' := (items ++ [value])%list in
          match eat "]" (skip_ws r1) with
          | Some r3 => Found (PList items') r3
          | None =>
              match eat "," (skip_ws r1) with
              | Some r3 => parse_array f items' (skip_ws r3)
              | None =>
                  Fail "Expecting ',' delimiter"
                       (String.length (skip_ws r1))
              end
          end
      | Fail msg n => Fail msg n
      | Exhausted => Exhausted
      end
  end.

(** [JSONDecodeError(msg, doc, pos)]. *)
Record JSONDecodeError : Type := mkJSONDecodeError {
  err_msg : string;
  err_doc : string;
  err_pos : nat
}.

Inductive loaded : Type :=
| Loaded (v : pyval)
| DecodeError (e : JSONDecodeError)
| RecursionError.

(** [json.loads(doc)]: white space, one value, white space, end.
    A value nested in an array or an object costs two units of fuel and
    at least one character, so the fuel given here is never used up
    ([loads_total] below). *)
Definition loads (doc : string) : loaded :=
  let len := String.length doc in
  match scan_once (S (2 * len)) (skip_ws doc) with
  | Found v rest =>
      match skip_ws rest with
      | EmptyString => Loaded v
      | rest' =>
          DecodeError (mkJSONDecodeError "Extra data" doc
                                         (len - String.length rest'))
      end
  | Fail msg n => DecodeError (mkJSONDecodeError msg doc (len - n))
  | Exhausted => RecursionError
  end.

(** [str(e)] for a [JSONDecodeError]:
    ['%s: line %d column %d (char %d)']. *)
Fixpoint count_newlines (n : nat) (s : string) : nat :=
  match n, s with
  | S k, String c r =>
      (if Ascii.eqb c "010" then 1 else 0) + count_newlines k r
  | _, _ => 0
  end.

Definition colno (doc : string) (pos : nat) : nat :=
  match Text.rfind "010" (Text.take pos doc) with
  | Some i => pos - i
  | None => pos + 1
  end.

Definition errmsg (e : JSONDecodeError) : string :=
  err_msg e ++ ": line "
    ++ Text.decimal (count_newlines (err_pos e) (err_doc e) + 1)
    ++ " column " ++ Text.decimal (colno (err_doc e) (err_pos e))
    ++ " (char " ++ Text.decimal (err_pos e) ++ ")".

(* --------------------------------------------------------------- *)
(** *** Encoding *)

Definition hex_digit (n : N) : ascii :=
  if N.ltb n 10 then ascii_of_N (48 + n) else ascii_of_N (87 + n).

(** ['\\u{0:04x}'.format(n)]. *)
Definition u_escape (n : N) : string :=
  String backslash (String "u"
    (String (hex_digit (N.land (N.shiftr n 12) 15))
    (String (hex_digit (N.land (N.shiftr n 8) 15))
    (String (hex_digit (N.land (N.shiftr n 4) 15))
    (String (hex_digit (N.land n 15)) EmptyString))))).

Definition escape2 (c : ascii) : string :=
  String backslash (String c EmptyString).

(** The replacement of one character in [encode_basestring_ascii]. *)
Definition encode_char (n : N) : string :=
  if N.eqb n 92 then escape2 backslash
  else if N.eqb n 34 then escape2 dquote
  else if N.eqb n 8 then escape2 "b"
  else if N.eqb n 12 then escape2 "f"
  else if N.eqb n 10 then escape2 "n"
  else if N.eqb n 13 then escape2 "r"
  else if N.eqb n 9 then escape2 "t"
  else if (N.leb 32 n && N.leb n 126)%bool
  then String (ascii_of_N n) EmptyString
  else if N.ltb n 65536 then u_escape n
  else
    let m := (n - 65536)%N in
    u_escape (N.lor 55296 (N.land (N.shiftr m 10) 1023))
      ++ u_escape (N.lor 56320 (N.land m 1023)).

Fixpoint encode_chars (s : ustr) : string :=
  match s with
  | [] => EmptyString
  | n :: r => encode_char n ++ encode_chars r
  end.

Definition encode_basestring_ascii (s : ustr) : string :=
  String dquote (encode_chars s ++ String dquote EmptyString).

Definition int_repr (z : Z) : string :=
  match z with
  | Zneg p => "-" ++ Text.decimal_N (Npos p)
  | _ => Text.decimal_N (Z.to_N z)
  end.

Fixpoint join (sep : string) (l : list string) : string :=
  match l with
  | [] => EmptyString
  | [x] => x
  | x :: r => x ++ sep ++ join sep r
  end.

(** [json.dumps(v)] with the default separators. *)
Fixpoint dumps (v : pyval) : string :=
  match v with
  | PNone => "null"
  | PBool true => "true"
  | PBool false => "false"
  | PInt z => int_repr z
  | PFloat literal => literal
  | PStr s => encode_basestring_ascii s
  | PList items => "[" ++ join ", " (map dumps items) ++ "]"
  | PDict items =>
      "{" ++ join ", "
               (map (fun kv => encode_basestring_ascii (fst kv) ++ ": "
                                 ++ dumps (snd kv)) items)
          ++ "}"
  end.

End Json.

(* ================================================================= *)
(** ** The world the program runs in *)

Import Pathlib.

(** The exceptions that can reach the program. *)
Inductive exn : Type :=
| JSONDecodeError (e : Json.JSONDecodeError)
| OSError (msg : string)
| UnicodeDecodeError (msg : string)
| RecursionError
| TypeError (msg : string)
| EOFError
| ImgurError (msg : string).

(** [str(e)], what [print(e)] shows. *)
Definition exn_str (e : exn) : string :=
  match e with
  | JSONDecodeError e => Json.errmsg e
  | OSError msg => msg
  | UnicodeDecodeError msg => msg
  | RecursionError => "maximum recursion depth exceeded"
  | TypeError msg => msg
  | EOFError => "EOF when reading a line"
  | ImgurError msg => msg
  end.

(** What opening a path for reading finds. *)
Inductive file_state : Type :=
| Absent
| Unreadable (msg : string)       (* [open] or [read] raises [OSError] *)
| Undecodable (msg : string)      (* the bytes are not text *)
| Content (text : string).

(** What listing a directory gives: the paths of its entries, in the
    order of the operating system, or an [OSError]. *)
Inductive listing : Type :=
| Entries (paths : list Path)
| ListError (msg : string).

(** What the program writes on the terminal. *)
Inductive output : Type :=
| Line (s : string)               (* [print(s)] *)
| Prompt (s : string).            (* the prompt of [input(s)] *)

(** A request to the Imgur client and its answer: the identifier found
    at [["response"]["data"]["id"]] of the result, or the exception that
    the call or that look-up raises. *)
Inductive net_call : Type :=
| ImageUpload (token : Json.pyval) (path title description : string)
| AlbumCreate (token : Json.pyval) (ids : list string)
              (title : option string) (description privacy : string).

Inductive api_result : Type :=
| ApiOk (id : string)
| ApiRaise (e : exn).

Record World : Type := mkWorld {
  xdg_config_home : string;
  fs_file : Path -> file_state;
  fs_write_error : Path -> option string;
  fs_is_dir : Path -> bool;
  fs_is_file : Path -> bool;
  fs_iterdir : Path -> listing;
  fs_absolute : Path -> string;
  stdin : list string;
  stdout : list output;
  (** The service answers a request knowing the requests before it. *)
  imgur : list (net_call * api_result) -> net_call -> api_result;
  net_log : list (net_call * api_result)
}.

Definition set_file (path : Path) (st : file_state) (w : World) : World :=
  mkWorld (xdg_config_home w)
          (fun p => if String.eqb p path then st else fs_file w p)
          (fs_write_error w) (fs_is_dir w) (fs_is_file w) (fs_iterdir w)
          (fs_absolute w) (stdin w) (stdout w) (imgur w) (net_log w).

Definition set_stdin (lines : list string) (w : World) : World :=
  mkWorld (xdg_config_home w) (fs_file w) (fs_write_error w) (fs_is_dir w)
          (fs_is_file w) (fs_iterdir w) (fs_absolute w) lines (stdout w)
          (imgur w) (net_log w).

Definition emit (o : output) (w : World) : World :=
  mkWorld (xdg_config_home w) (fs_file w) (fs_write_error w) (fs_is_dir w)
          (fs_is_file w) (fs_iterdir w) (fs_absolute w) (stdin w)
          (stdout w ++ [o]) (imgur w) (net_log w).

Definition set_net_log (log : list (net_call * api_result)) (w : World)
  : World :=
  mkWorld (xdg_config_home w) (fs_file w) (fs_write_error w) (fs_is_dir w)
          (fs_is_file w) (fs_iterdir w) (fs_absolute w) (stdin w) (stdout w)
          (imgur w) log.

Definition log_call (c : net_call) (r : api_result) (w : World) : World :=
  set_net_log (net_log w ++ [(c, r)]) w.

(* ================================================================= *)
(** ** Computations: a state monad with exit and exceptions *)

Inductive outcome (A : Type) : Type :=
| Return (a : A)
| Exit (code : Z)                 (* [sys.exit(code)] *)
| Raise (e : exn).                (* an exception on its way up *)
Arguments Return {A} a.
Arguments Exit {A} code.
Arguments Raise {A} e.

Definition M (A : Type) : Type := World -> outcome A * World.

Definition ret {A : Type} (a : A) : M A := fun w => (Return a, w).

Definition bind {A B : Type} (c : M A) (k : A -> M B) : M B :=
  fun w =>
    match c w with
    | (Return a, w') => k a w'
    | (Exit code, w') => (Exit code, w')
    | (Raise e, w') => (Raise e, w')
    end.

Notation "x <- c ;; k" := (bind c (fun x => k))
  (at level 61, c at next level, right associativity).
Notation "c ;;; k" := (bind c (fun _ => k))
  (at level 61, right associativity).

Definition sys_exit {A : Type} (code : Z) : M A := fun w => (Exit code, w).
Definition raise {A : Type} (e : exn) : M A := fun w => (Raise e, w).

(** [try: c  except <handled> as e: handler(e)]. *)
Definition try_except {A : Type} (c : M A) (handled : exn -> bool)
           (handler : exn -> M A) : M A :=
  fun w =>
    match c w with
    | (Raise e, w') => if handled e then handler e w' else (Raise e, w')
    | r => r
    end.

(** The exit status of the process: an exception that nobody catches
    ends the interpreter with status 1. *)
Definition exit_status (o : outcome unit) : Z :=
  match o with
  | Return _ => 0
  | Exit code => code
  | Raise _ => 1
  end.

Definition print (s : string) : M unit :=
  fun w => (Return tt, emit (Line s) w).

(** [input(prompt)]: shows the prompt and takes the next line, or raises
    [EOFError] at the end of the input. *)
Definition input (prompt : string) : M string :=
  fun w =>
    match stdin w with
    | [] => (Raise EOFError, emit (Prompt prompt) w)
    | line :: rest => (Return line, emit (Prompt prompt) (set_stdin rest w))
    end.

Definition path_exists (path : Path) : M bool :=
  fun w =>
    (Return match fs_file w path with Absent => false | _ => true end, w).

Definition is_dir (path : Path) : M bool :=
  fun w => (Return (fs_is_dir w path), w).

Definition is_file (path : Path) : M bool :=
  fun w => (Return (fs_is_file w path), w).

Definition absolute (path : Path) : M string :=
  fun w => (Return (fs_absolute w path), w).

Definition iterdir (path : Path) : M (list Path) :=
  fun w =>
    match fs_iterdir w path with
    | Entries paths => (Return paths, w)
    | ListError msg => (Raise (OSError msg), w)
    end.

(** [with path.open() as f: f.read()]. *)
Definition read_text (path : Path) : M string :=
  fun w =>
    match fs_file w path with
    | Content text => (Return text, w)
    | Absent => (Raise (OSError "No such file or directory"), w)
    | Unreadable msg => (Raise (OSError msg), w)
    | Undecodable msg => (Raise (UnicodeDecodeError msg), w)
    end.

(** [with path.open("w") as f: f.write(text)]. *)
Definition write_text (path : Path) (text : string) : M unit :=
  fun w =>
    match fs_write_error w path with
    | Some msg => (Raise (OSError msg), w)
    | None => (Return tt, set_file path (Content text) w)
    end.

(** One call of the Imgur client. *)
Definition imgur_call (c : net_call) : M string :=
  fun w =>
    let r := imgur w (net_log w) c in
    match r with
    | ApiOk id => (Return id, log_call c r w)
    | ApiRaise e => (Raise e, log_call c r w)
    end.

(* ================================================================= *)
(** ** [chapterup/main.py] *)

(** [get_config_path()]: [Path(XDG_CONFIG_HOME, "chapterup" + "rc")]. *)
Definition get_config_path : M Path :=
  fun w => (Return (xdg_config_home w ++ "/" ++ "chapterup" ++ "rc"), w).

(** The dataclass [Config].  Python does not check the annotation [str]:
    the field holds whatever value it is given. *)
Record Config : Type := mkConfig {
  imgur_access_token : Json.pyval
}.

Definition token_key : Json.ustr := Json.ustr_of "imgur_access_token".

(** [Config()]. *)
Definition Config_default : Config := mkConfig (Json.PStr []).

(** [cls] called with the items of [data] as keyword arguments: [data]
    has to be a mapping; a key that is not a field is an unexpected
    keyword argument; a field without a key keeps its default. *)
Definition Config_init (data : Json.pyval) : M Config :=
  match data with
  | Json.PDict items =>
      if forallb (fun kv => Json.ustr_eqb (fst kv) token_key) items
      then
        match Json.dict_get token_key items with
        | Some v => ret (mkConfig v)
        | None => ret Config_default
        end
      else raise (TypeError
                    "Config.__init__() got an unexpected keyword argument")
  | _ => raise (TypeError "argument after ** must be a mapping")
  end.

(** [json.load(f)]. *)
Definition json_load (path : Path) : M Json.pyval :=
  text <- read_text path ;;
  match Json.loads text with
  | Json.Loaded v => ret v
  | Json.DecodeError e => raise (JSONDecodeError e)
  | Json.RecursionError => raise RecursionError
  end.

Definition from_json_file (path : Path) : M Config :=
  data <- json_load path ;;
  Config_init data.

(** [asdict(self)]. *)
Definition asdict (self : Config) : Json.pyval :=
  Json.PDict [(token_key, imgur_access_token self)].

Definition to_json_file (self : Config) (path : Path) : M unit :=
  write_text path (Json.dumps (asdict self)).

Definition load_config : M Config :=
  config_path <- get_config_path ;;
  present <- path_exists config_path ;;
  if present then
    try_except (from_json_file config_path)
      (fun e => match e with
                | JSONDecodeError _ | OSError _ => true
                | _ => false
                end)
      (fun e =>
         print "Error: Could not read configuration file." ;;;
         print (exn_str e) ;;;
         sys_exit 1)
  else ret Config_default.

(** [get_confirmation(prompt, default)].  The [while True] loop reads one
    line per round and [input] raises [EOFError] when none is left, so
    one round more than there are lines always ends the loop. *)
Fixpoint get_confirmation_loop (rounds : nat) (prompt : string)
         (default : option bool) : M bool :=
  match rounds with
  | O => raise EOFError
  | S n =>
      user_input <- input prompt ;;
      if Text.startswith (Text.strip (Text.lower user_input)) "y"
      then ret true
      else if Text.startswith (Text.strip (Text.lower user_input)) "n"
      then ret false
      else if (String.eqb user_input ""
               && match default with Some _ => true | None => false end)%bool
      then ret (match default with Some d => d | None => false end)
      else
        print "Invalid input. Please try again." ;;;
        get_confirmation_loop n prompt default
  end.

Definition confirmation_prompt (prompt : string) (default : option bool)
  : string :=
  (prompt ++ match default with
             | None => " [y/n]"
             | Some true => " [Y/n]"
             | Some false => " [y/N]"
             end) ++ " > ".

Definition get_confirmation (prompt : string) (default : option bool)
  : M bool :=
  fun w =>
    get_confirmation_loop (S (List.length (stdin w)))
                          (confirmation_prompt prompt default) default w.

Definition image_suffixes : list string := [".jpg"; ".jpeg"; ".png"; ".gif"].

(** [path.suffix.lower() in [".jpg", ".jpeg", ".png", ".gif"]]. *)
Definition is_image_path (path : Path) : bool :=
  existsb (String.eqb (Text.lower (suffix path))) image_suffixes.

Definition get_image_paths (dir_path : Path) : M (list Path) :=
  entries <- iterdir dir_path ;;
  let paths := Natsort.natsorted entries in
  ret (filter is_image_path paths).

(** The [for] loop of [imgur_upload]; [tqdm] passes the paths through. *)
Fixpoint upload_images (token : Json.pyval) (image_paths : list Path)
         (image_ids : list string) : M (list string) :=
  match image_paths with
  | [] => ret image_ids
  | image_path :: rest =>
      regular <- is_file image_path ;;
      if regular then
        abs <- absolute image_path ;;
        image_id <- imgur_call (ImageUpload token abs (stem image_path)
                                            (stem image_path)) ;;
        upload_images token rest (image_ids ++ [image_id])
      else upload_images token rest image_ids
  end.

Definition imgur_upload (image_paths : list Path) (config : Config)
           (album_name : option string) (public : bool) : M unit :=
  let token := imgur_access_token config in
  image_ids <- upload_images token image_paths [] ;;
  album_id <- imgur_call (AlbumCreate token image_ids album_name ""
                            (if negb public then "hidden" else "public")) ;;
  print (Text.repeat_char "-" 50) ;;;
  print ("Album created with id: " ++ album_id) ;;;
  print ("Access the album here: https://imgur.com/a/" ++ album_id).

(** The arguments as [magic_docopt] returns them. *)
Record Args : Type := mkArgs {
  dir_path : option string;
  album_name : option string;
  access_token : option string;
  public : bool;
  show_config_path : bool
}.

Fixpoint print_names (paths : list Path) : M unit :=
  match paths with
  | [] => ret tt
  | path :: rest => print (name path) ;;; print_names rest
  end.

Definition no_directory_message : string :=
  "Error: The given path is not a directory.".

Definition no_images_message : string :=
  "Error: The given directory does not contain any test_images.".

(** [Path(args.dir_path)]. *)
Definition Path_new (arg : option string) : M Path :=
  match arg with
  | Some s => ret s
  | None =>
      raise (TypeError
               "expected str, bytes or os.PathLike object, not NoneType")
  end.

Definition main (args : Args) : M unit :=
  if show_config_path args then
    config_path <- get_config_path ;;
    print config_path
  else
    config <- load_config ;;
    config <- match access_token args with
              | Some token =>
                  if negb (String.eqb token "") then
                    let config := mkConfig (Json.PStr (Json.ustr_of token)) in
                    config_path <- get_config_path ;;
                    to_json_file config config_path ;;;
                    ret config
                  else ret config
              | None => ret config
              end ;;
    dir_path <- Path_new (dir_path args) ;;
    directory <- is_dir dir_path ;;
    if negb directory then
      print no_directory_message ;;;
      sys_exit 1
    else
      image_paths <- get_image_paths dir_path ;;
      match image_paths with
      | [] =>
          print no_images_message ;;;
          sys_exit 1
      | _ :: _ =>
          print "The following test_images will be uploaded in order:" ;;;
          print_names image_paths ;;;
          print (String "010" ("Found "
                   ++ Text.decimal (List.length image_paths)
                   ++ " test_images.")) ;;;
          confirmed <- get_confirmation "Do you want to continue?"
                                        (Some false) ;;
          if negb confirmed then
            print "Aborting." ;;;
            sys_exit 0
          else
            imgur_upload image_paths config (album_name args) (public args)
      end.

(* ================================================================= *)
(** ** Worlds to run the program in *)

(** A service that numbers what it stores. *)
Definition numbering_service (log : list (net_call * api_result))
           (c : net_call) : api_result :=
  ApiOk ("id" ++ Text.decimal (List.length log)).

(** A home directory with a folder [pics], no configuration file yet and
    the given lines waiting on the terminal.  [pics/photo.jpg] is a
    directory; [notes.txt] is a regular file next to [pics]. *)
Definition pics_entries : list Path :=
  ["pics/img10.png"; "pics/photo.jpg"; "pics/img2.png"; "pics/notes.txt";
   "pics/img1.png"; "pics/Cover.JPEG"].

Definition home_world (lines : list string) : World :=
  mkWorld "/home/u/.config"
          (fun _ => Absent)
          (fun _ => None)
          (fun p => String.eqb p "pics" || String.eqb p "pics/photo.jpg"
                    || String.eqb p "empty")%bool
          (fun p => negb (String.eqb p "pics" || String.eqb p "pics/photo.jpg"
                          || String.eqb p "empty"))%bool
          (fun p => if String.eqb p "pics" then Entries pics_entries
                    else if String.eqb p "empty" then Entries ["empty/a.txt"]
                    else ListError "Not a directory")
          (fun p => "/home/u/" ++ p)
          lines [] numbering_service [].

Definition config_path_of (w : World) : Path :=
  xdg_config_home w ++ "/" ++ "chapterup" ++ "rc".

(** The same home with the given text in the configuration file. *)
Definition home_with_config (text : string) (lines : list string) : World :=
  set_file (config_path_of (home_world lines)) (Content text)
           (home_world lines).

(** The scenario of the specification: a folder [album] with four
    regular image files, and [y] typed at the prompt. *)
Definition album_world : World :=
  mkWorld "/home/u/.config"
          (fun _ => Absent)
          (fun _ => None)
          (fun p => String.eqb p "album")
          (fun p => negb (String.eqb p "album"))
          (fun p => if String.eqb p "album"
                    then Entries ["album/b.jpg"; "album/a.png";
                                  "album/c10.gif"; "album/c2.gif"]
                    else ListError "Not a directory")
          (fun p => "/home/u/" ++ p)
          ["y"] [] numbering_service [].

(** [chapterup <dir> "Chapter 1"], with or without [--access-token]. *)
Definition upload_args (dir : string) (token : option string) : Args :=
  mkArgs (Some dir) (Some "Chapter 1") token false false.

(** A configuration file written for another field name. *)
Definition stale_config_text : string :=
  Json.dumps (Json.PDict [(Json.ustr_of "access_token",
                           Json.PStr (Json.ustr_of "abc123"))]).

(** The same home where no file can be written and the folder [locked]
    cannot be listed. *)
Definition locked_home (lines : list string) : World :=
  let w := home_world lines in
  mkWorld (xdg_config_home w) (fs_file w)
          (fun _ => Some "Permission denied")
          (fun p => String.eqb p "locked" || fs_is_dir w p)%bool
          (fun p => negb (String.eqb p "locked") && fs_is_file w p)%bool
          (fun p => if String.eqb p "locked"
                    then ListError "Permission denied"
                    else fs_iterdir w p)
          (fs_absolute w) (stdin w) (stdout w) (imgur w) (net_log w).


(* ================================================================= *)
(** ** Vocabulary of the statements *)

(** The line, behind leading white space, starts with one of [letters]. *)
Definition starts_with_any (letters : list ascii) (line : string) : Prop :=
  exists ws c rest,
    line = ws ++ String c rest /\ Text.all_space ws = true /\ In c letters.





(** Neighbouring runs are of different kinds. *)
Fixpoint alternating (l : list (bool * string)) : Prop :=
  match l with
  | a :: (b :: _) as r => fst a <> fst b /\ alternating r
  | _ => True
  end.

(** The separator natsort puts in front of a leading number. *)
Definition head_sep (l : list (bool * string)) : list Natsort.chunk :=
  match l with
  | (true, _) :: _ => [Natsort.sep]
  | _ => []
  end.

(** The request that uploads the file at [path]. *)
Definition upload_call (token : Json.pyval) (w : World) (path : Path)
  : net_call :=
  ImageUpload token (fs_absolute w path) (stem path) (stem path).

Definition privacy_of (public : bool) : string :=
  if negb public then "hidden" else "public".

(** The two halves of [main] behind [--show-config-path]: [configure]
    loads the configuration and stores a new token, [proceed] is the rest
    ([main_halves] below). *)
Definition configure (args : Args) : M Config :=
  config <- load_config ;;
  match access_token args with
  | Some token =>
      if negb (String.eqb token "") then
        let config := mkConfig (Json.PStr (Json.ustr_of token)) in
        config_path <- get_config_path ;;
        to_json_file config config_path ;;;
        ret config
      else ret config
  | None => ret config
  end.

Definition proceed (args : Args) (config : Config) : M unit :=
  dir_path <- Path_new (dir_path args) ;;
  directory <- is_dir dir_path ;;
  if negb directory then
    print no_directory_message ;;;
    sys_exit 1
  else
    image_paths <- get_image_paths dir_path ;;
    match image_paths with
    | [] =>
        print no_images_message ;;;
        sys_exit 1
    | _ :: _ =>
        print "The following test_images will be uploaded in order:" ;;;
        print_names image_paths ;;;
        print (String "010" ("Found "
                 ++ Text.decimal (List.length image_paths)
                 ++ " test_images.")) ;;;
        confirmed <- get_confirmation "Do you want to continue?"
                                      (Some false) ;;
        if negb confirmed then
          print "Aborting." ;;;
          sys_exit 0
        else
          imgur_upload image_paths config (album_name args) (public args)
    end.

(** Between [w] and [w'] the program has sent nothing to Imgur, read
    nothing from the terminal and shown no prompt: the output grew by
    printed lines only. *)
Definition quiet (w w' : World) : Prop :=
  net_log w' = net_log w
  /\ stdin w' = stdin w
  /\ exists lines, stdout w' = (stdout w ++ map Line lines)%list.

(** The text [to_json_file] writes for a token given on the command
    line. *)
Definition token_file (token : string) : file_state :=
  Content (Json.dumps (asdict (mkConfig (Json.PStr (Json.ustr_of token))))).

Definition read_error_message : string :=
  "Error: Could not read configuration file.".

(** Case analysis on the 256 characters. *)
Ltac each_char c := destruct c as [[] [] [] [] [] [] [] []].

(** *** Answers at the confirmation gate *)

Definition invalid_notice : string := "Invalid input. Please try again.".

Definition says_yes (line : string) : Prop :=
  starts_with_any ["y"; "Y"]%char line.

Definition says_no (line : string) : Prop :=
  starts_with_any ["n"; "N"]%char line.

(** The line is an answer, and [answer] is what it says. *)
Definition accepted (default : option bool) (line : string) (answer : bool)
  : Prop :=
  (says_yes line /\ answer = true)
  \/ (says_no line /\ answer = false)
  \/ (line = "" /\ default = Some answer).

(** The line is no answer. *)
Definition rejected (default : option bool) (line : string) : Prop :=
  ~ says_yes line /\ ~ says_no line /\ (line <> "" \/ default = None).

(** What the terminal shows for [n] lines that were no answer. *)
Fixpoint reprompts (prompt : string) (n : nat) : list output :=
  match n with
  | O => []
  | S k => Prompt prompt :: Line invalid_notice :: reprompts prompt k
  end.

(** *** Worlds that differ in few places *)

Fixpoint emit_all (os : list output) (w : World) : World :=
  match os with
  | [] => w
  | o :: rest => emit_all rest (emit o w)
  end.

(** Only the terminal differs between [w] and [w']. *)
Definition terminal_only (w w' : World) : Prop :=
  xdg_config_home w' = xdg_config_home w
  /\ fs_file w' = fs_file w
  /\ fs_write_error w' = fs_write_error w
  /\ fs_is_dir w' = fs_is_dir w
  /\ fs_is_file w' = fs_is_file w
  /\ fs_iterdir w' = fs_iterdir w
  /\ fs_absolute w' = fs_absolute w
  /\ imgur w' = imgur w
  /\ net_log w' = net_log w.

(** What [main] prints between discovery and the prompt. *)
Definition announcement (paths : list Path) : list output :=
  (Line "The following test_images will be uploaded in order:"
     :: map (fun path => Line (name path)) paths
     ++ [Line (String "010" ("Found " ++ Text.decimal (List.length paths)
                               ++ " test_images."))])%list.

(** What [imgur_upload] prints for the album it created. *)
Definition album_report (album_id : string) : list output :=
  [Line (Text.repeat_char "-" 50);
   Line ("Album created with id: " ++ album_id);
   Line ("Access the album here: https://imgur.com/a/" ++ album_id)].

(** The request that creates the album. *)
Definition album_call (config : Config) (ids : list string)
           (album_name : option string) (public : bool) : net_call :=
  AlbumCreate (imgur_access_token config) ids album_name ""
              (privacy_of public).

(* ================================================================= *)
(** * Properties *)

(** ** Text *)

Lemma isspace_lower_char (c : ascii) :
  Text.isspace (Text.lower_char c) = Text.isspace c.
Proof. each_char c; reflexivity. Qed.

Lemma lower_char_is (c l : ascii) :
  In l ["y"; "n"]%char ->
  Text.lower_char c = l <-> c = l \/ c = Ascii.ascii_of_nat (nat_of_ascii l - 32).
Proof.
  intros [<- | [<- | []]]; each_char c; vm_compute; split; intro H;
    try discriminate H; auto; destruct H as [H | H]; discriminate H.
Qed.

Lemma lower_app (a b : string) :
  Text.lower (a ++ b) = Text.lower a ++ Text.lower b.
Proof. induction a as [| c a IH]; simpl; [reflexivity | now rewrite IH]. Qed.

Lemma all_space_lower (s : string) :
  Text.all_space (Text.lower s) = Text.all_space s.
Proof.
  induction s as [| c s IH]; simpl; [reflexivity |].
  now rewrite isspace_lower_char, IH.
Qed.

Lemma lstrip_app_space (ws s : string) :
  Text.all_space ws = true -> Text.lstrip (ws ++ s) = Text.lstrip s.
Proof.
  induction ws as [| c ws IH]; simpl; [reflexivity |].
  intro H. apply andb_true_iff in H as [Hc Hws]. now rewrite Hc, IH.
Qed.

(** Every string is a run of white space followed by what [lstrip]
    keeps, and that does not start with white space. *)
Lemma lstrip_split (s : string) :
  exists ws, s = ws ++ Text.lstrip s /\ Text.all_space ws = true.
Proof.
  induction s as [| c s [ws [Heq Hws]]]; simpl.
  - now exists EmptyString.
  - destruct (Text.isspace c) eqn:Hc.
    + exists (String c ws). simpl. rewrite Hc, Hws. split; [| reflexivity].
      now rewrite <- Heq.
    + now exists EmptyString.
Qed.

Lemma lstrip_head (s : string) (c : ascii) (r : string) :
  Text.lstrip s = String c r -> Text.isspace c = false.
Proof.
  induction s as [| a s IH]; simpl; [discriminate |].
  destruct (Text.isspace a) eqn:Ha; [exact IH |].
  intro H. now injection H as <- _.
Qed.

Lemma rstrip_head (c : ascii) (r : string) :
  Text.isspace c = false ->
  Text.rstrip (String c r) = String c (Text.rstrip r).
Proof. intro H. simpl. now rewrite H. Qed.

(** The first character of [strip(s)] is the first character of [s]
    behind its leading white space. *)
Lemma strip_head (s : string) :
  match Text.lstrip s with
  | EmptyString => Text.strip s = EmptyString
  | String c r => Text.strip s = String c (Text.rstrip r)
  end.
Proof.
  unfold Text.strip. destruct (Text.lstrip s) as [| c r] eqn:H.
  - reflexivity.
  - apply rstrip_head. exact (lstrip_head _ _ _ H).
Qed.

Lemma lower_lstrip (s : string) :
  Text.lstrip (Text.lower s) = Text.lower (Text.lstrip s).
Proof.
  induction s as [| c s IH]; simpl; [reflexivity |].
  rewrite isspace_lower_char. now destruct (Text.isspace c).
Qed.

(** ** The confirmation gate *)

Lemma startswith_letter (l : ascii) (s : string) :
  Text.startswith s (String l EmptyString) = true <->
  exists r, s = String l r.
Proof.
  unfold Text.startswith. destruct s as [| c r]; simpl.
  - split; [discriminate | intros [r H]; discriminate H].
  - destruct (ascii_dec l c) as [-> | Hne].
    + split; [now exists r | intros _; now destruct r].
    + split; [discriminate | intros [r' H]; injection H as ? _; congruence].
Qed.

Lemma answer_letter (l : ascii) (line : string) :
  In l ["y"; "n"]%char ->
  Text.startswith (Text.strip (Text.lower line)) (String l EmptyString) = true
  <-> starts_with_any [l; Ascii.ascii_of_nat (nat_of_ascii l - 32)] line.
Proof.
  intro Hl. rewrite startswith_letter. split.
  - intros [r Hr].
    pose proof (strip_head (Text.lower line)) as Hs.
    rewrite lower_lstrip in Hs.
    destruct (lstrip_split line) as [ws [Heq Hws]].
    destruct (Text.lstrip line) as [| c rest]; simpl in Hs.
    + rewrite Hs in Hr. discriminate Hr.
    + rewrite Hs in Hr. injection Hr as Hc _.
      exists ws, c, rest. repeat split; try assumption.
      apply (lower_char_is c l Hl) in Hc.
      destruct Hc as [-> | ->]; [left | right; left]; reflexivity.
  - intros [ws [c [rest [-> [Hws Hc]]]]].
    assert (Hlow : Text.lower_char c = l).
    { apply (lower_char_is c l Hl).
      destruct Hc as [<- | [<- | []]]; [left | right]; reflexivity. }
    assert (Hsp : Text.isspace c = false).
    { rewrite <- isspace_lower_char, Hlow.
      destruct Hl as [<- | [<- | []]]; reflexivity. }
    pose proof (strip_head (Text.lower (ws ++ String c rest))) as Hs.
    rewrite lower_lstrip, lstrip_app_space in Hs by assumption.
    simpl in Hs. rewrite Hsp in Hs. simpl in Hs. rewrite Hlow in Hs.
    eauto.
Qed.

Lemma get_confirmation_step (prompt : string) (default : option bool)
      (w : World) (line : string) (rest : list string) :
  stdin w = line :: rest ->
  get_confirmation prompt default w =
  let asked :=
    emit (Prompt (confirmation_prompt prompt default)) (set_stdin rest w) in
  if Text.startswith (Text.strip (Text.lower line)) "y"
  then (Return true, asked)
  else if Text.startswith (Text.strip (Text.lower line)) "n"
  then (Return false, asked)
  else if (String.eqb line ""
           && match default with Some _ => true | None => false end)%bool
  then (Return (match default with Some d => d | None => false end), asked)
  else get_confirmation prompt default
         (emit (Line "Invalid input. Please try again.") asked).
Proof.
  intro Hin. unfold get_confirmation at 1. rewrite Hin.
  cbn [List.length get_confirmation_loop]. unfold bind at 1, input at 1.
  rewrite Hin.
  destruct (Text.startswith (Text.strip (Text.lower line)) "y");
    [reflexivity |].
  destruct (Text.startswith (Text.strip (Text.lower line)) "n");
    [reflexivity |].
  destruct (String.eqb line "" && _)%bool; reflexivity.
Qed.

(** C3.  The confirmation gate on the next line of input: a line that
    starts, behind optional white space, with [y] or [Y] gives [True]; one
    that starts with [n] or [N] gives [False]; the empty line gives the
    default when there is one; every other line is answered with the
    notice and the gate asks again, treating the lines that follow in the
    same way. *)
Theorem get_confirmation_gate (prompt : string) (default : option bool)
        (w : World) (line : string) (rest : list string) :
  stdin w = line :: rest ->
  let asked :=
    emit (Prompt (confirmation_prompt prompt default)) (set_stdin rest w) in
  (starts_with_any ["y"; "Y"]%char line ->
   get_confirmation prompt default w = (Return true, asked))
  /\ (starts_with_any ["n"; "N"]%char line ->
      get_confirmation prompt default w = (Return false, asked))
  /\ (forall d, line = "" -> default = Some d ->
      get_confirmation prompt default w = (Return d, asked))
  /\ (~ starts_with_any ["y"; "Y"]%char line ->
      ~ starts_with_any ["n"; "N"]%char line ->
      line <> "" \/ default = None ->
      get_confirmation prompt default w =
      get_confirmation prompt default
        (emit (Line "Invalid input. Please try again.") asked)).
Proof.
  intros Hin asked.
  pose proof (answer_letter "y" line (or_introl eq_refl)) as Hy.
  pose proof (answer_letter "n" line (or_intror (or_introl eq_refl))) as Hn.
  change (Ascii.ascii_of_nat (nat_of_ascii "y" - 32)) with "Y"%char in Hy.
  change (Ascii.ascii_of_nat (nat_of_ascii "n" - 32)) with "N"%char in Hn.
  rewrite (get_confirmation_step prompt default w line rest Hin).
  fold asked. cbv zeta.
  destruct (Text.startswith (Text.strip (Text.lower line)) "y") eqn:Ey.
  { assert (HY : starts_with_any ["y"; "Y"]%char line) by now apply Hy.
    repeat split; try reflexivity.
    - intro HN. apply Hn in HN.
      apply startswith_letter in Ey as [r1 E1].
      apply startswith_letter in HN as [r2 E2].
      rewrite E1 in E2. discriminate E2.
    - intros d ->. discriminate Ey.
    - intros HnY. now elim HnY. }
  destruct (Text.startswith (Text.strip (Text.lower line)) "n") eqn:En.
  { assert (HN : starts_with_any ["n"; "N"]%char line) by now apply Hn.
    repeat split; try reflexivity.
    - intro HY. apply Hy in HY. discriminate HY.
    - intros d ->. discriminate En.
    - intros _ HnN. now elim HnN. }
  repeat split.
  - intro HY. apply Hy in HY. discriminate HY.
  - intro HN. apply Hn in HN. discriminate HN.
  - intros d -> ->. reflexivity.
  - intros _ _ [Hne | ->].
    + destruct (String.eqb_spec line ""); [contradiction | reflexivity].
    + now rewrite andb_false_r.
Qed.

(** ** The order of [natsorted] *)

Section Lexicographic.

Context {A : Type} (cmp : A -> A -> comparison).
Hypothesis cmp_opp : forall a b, cmp b a = CompOpp (cmp a b).
Hypothesis cmp_eq : forall a b, cmp a b = Eq -> a = b.
Hypothesis cmp_lt_trans :
  forall a b c, cmp a b = Lt -> cmp b c = Lt -> cmp a c = Lt.


Lemma lex_opp (l1 l2 : list A) :
  Natsort.lex_compare cmp l2 l1 = CompOpp (Natsort.lex_compare cmp l1 l2).
Proof.
  revert l2. induction l1 as [| a l1 IH]; intros [| b l2]; simpl; auto.
  rewrite (cmp_opp a b). destruct (cmp a b); simpl; auto.
Qed.




End Lexicographic.


Lemma char_compare_opp (a b : ascii) :
  Natsort.char_compare b a = CompOpp (Natsort.char_compare a b).
Proof. apply N.compare_antisym. Qed.




Lemma str_compare_opp (s t : string) :
  Natsort.str_compare t s = CompOpp (Natsort.str_compare s t).
Proof. apply lex_opp, char_compare_opp. Qed.



Lemma chunk_compare_opp (a b : Natsort.chunk) :
  Natsort.chunk_compare b a = CompOpp (Natsort.chunk_compare a b).
Proof.
  destruct a, b; simpl; auto using str_compare_opp, N.compare_antisym.
Qed.



Lemma key_compare_opp (k1 k2 : list Natsort.chunk) :
  Natsort.key_compare k2 k1 = CompOpp (Natsort.key_compare k1 k2).
Proof. apply lex_opp, chunk_compare_opp. Qed.



Lemma natural_le_compare (a b : string) :
  Natsort.natural_le a b <->
  Natsort.key_compare (Natsort.natsort_key a) (Natsort.natsort_key b) <> Gt.
Proof.
  unfold Natsort.natural_le, Natsort.key_lt.
  rewrite (key_compare_opp (Natsort.natsort_key a)).
  destruct (Natsort.key_compare _ _); simpl; split; congruence.
Qed.



Lemma natural_le_total (a b : string) :
  Natsort.natural_le a b \/ Natsort.natural_le b a.
Proof.
  rewrite !natural_le_compare.
  rewrite (key_compare_opp (Natsort.natsort_key a) (Natsort.natsort_key b)).
  destruct (Natsort.key_compare _ _); simpl; auto; left + right; congruence.
Qed.


(** *** [sorted] sorts *)

Lemma insert_by_perm {A K : Type} (key : A -> K) (lt : K -> K -> bool)
      (x : A) (l : list A) :
  Permutation (Natsort.insert_by key lt x l) (x :: l).
Proof.
  induction l as [| y l IH]; simpl; [reflexivity |].
  destruct (lt (key y) (key x)); [| reflexivity].
  rewrite IH. apply perm_swap.
Qed.

Lemma sorted_perm {A K : Type} (key : A -> K) (lt : K -> K -> bool)
      (l : list A) :
  Permutation (Natsort.sorted key lt l) l.
Proof.
  induction l as [| x l IH]; simpl; [reflexivity |].
  unfold Natsort.sorted in IH. rewrite insert_by_perm. now constructor.
Qed.



Lemma natsorted_perm (l : list string) : Permutation (Natsort.natsorted l) l.
Proof. apply sorted_perm. Qed.

Lemma filter_perm {A : Type} (f : A -> bool) (l1 l2 : list A) :
  Permutation l1 l2 -> Permutation (filter f l1) (filter f l2).
Proof.
  induction 1 as [| x l1 l2 _ IH | x y l | l1 l2 l3 _ IH1 _ IH2]; simpl.
  - constructor.
  - destruct (f x); [now constructor | exact IH].
  - destruct (f x), (f y); try reflexivity. apply perm_swap.
  - now transitivity (filter f l2).
Qed.



(** *** The key of a name with a number in it *)


Lemma append_assoc (a b c : string) : (a ++ b) ++ c = a ++ (b ++ c).
Proof. induction a as [| x a IH]; simpl; [reflexivity | now rewrite IH]. Qed.





Lemma runs_alternating (s : string) : alternating (Natsort.runs s).
Proof.
  induction s as [| c s IH]; simpl; [exact I |].
  destruct (Natsort.runs s) as [| [d' run] rest]; [exact I |].
  destruct (Bool.eqb (Text.isdigit c) d') eqn:E.
  - apply eqb_prop in E. subst d'. destruct rest; [exact I |]. exact IH.
  - split; [| exact IH]. simpl. intro H. rewrite H in E.
    now rewrite eqb_reflx in E.
Qed.

Lemma is_num_component (r : bool * string) :
  Natsort.is_num (Natsort.component_transform r) = fst r.
Proof. destruct r as [[] run]; reflexivity. Qed.

Lemma sep_between_alternating (a : bool * string) (l : list (bool * string)) :
  alternating (a :: l) ->
  Natsort.sep_between (Natsort.component_transform a)
                      (map Natsort.component_transform l)
  = map Natsort.component_transform l.
Proof.
  revert a. induction l as [| b l IH]; intros a Halt; [reflexivity |].
  destruct Halt as [Hne Halt]. simpl.
  rewrite !is_num_component, (IH b Halt).
  destruct (fst a), (fst b); try reflexivity. congruence.
Qed.

Lemma natsort_key_runs (s : string) :
  Natsort.natsort_key s
  = (head_sep (Natsort.runs s)
       ++ map Natsort.component_transform (Natsort.runs s))%list.
Proof.
  unfold Natsort.natsort_key. pose proof (runs_alternating s) as Halt.
  destruct (Natsort.runs s) as [| a l]; [reflexivity |].
  cbn [map Natsort.sep_inserter]. rewrite (sep_between_alternating a l Halt).
  rewrite is_num_component. now destruct a as [[] run].
Qed.


(** ** Discovery *)

Lemma is_image_path_spec (p : Path) :
  is_image_path p = true <-> In (Text.lower (suffix p)) image_suffixes.
Proof.
  unfold is_image_path. rewrite existsb_exists. split.
  - intros [x [Hin Heq]]. apply String.eqb_eq in Heq. now subst x.
  - intro Hin. exists (Text.lower (suffix p)). split; [exact Hin |].
    apply String.eqb_refl.
Qed.

Lemma get_image_paths_eq (w : World) (d : Path) (entries : list Path) :
  fs_iterdir w d = Entries entries ->
  get_image_paths d w
  = (Return (filter is_image_path (Natsort.natsorted entries)), w).
Proof.
  intro H. unfold get_image_paths, bind, iterdir. now rewrite H.
Qed.


(** ** The upload loop *)

Lemma upload_images_cons (token : Json.pyval) (p : Path) (paths : list Path)
      (ids : list string) (w : World) :
  upload_images token (p :: paths) ids w
  = if fs_is_file w p then
      match imgur w (net_log w) (upload_call token w p) with
      | ApiOk id =>
          upload_images token paths (ids ++ [id])
                        (log_call (upload_call token w p) (ApiOk id) w)
      | ApiRaise e =>
          (Raise e, log_call (upload_call token w p) (ApiRaise e) w)
      end
    else upload_images token paths ids w.
Proof.
  cbn [upload_images]. unfold bind, is_file, absolute, imgur_call, upload_call.
  destruct (fs_is_file w p); [| reflexivity].
  now destruct (imgur w (net_log w) _).
Qed.


(** A path that is not a regular file leaves no trace in the loop. *)
Lemma upload_images_skip (token : Json.pyval) (p : Path) (l1 l2 : list Path) :
  forall (ids : list string) (w : World),
    fs_is_file w p = false ->
    upload_images token (l1 ++ p :: l2)%list ids w
    = upload_images token (l1 ++ l2)%list ids w.
Proof.
  induction l1 as [| q l1 IH]; intros ids w Hp.
  - cbn [app]. now rewrite upload_images_cons, Hp.
  - cbn [app]. rewrite !upload_images_cons.
    destruct (fs_is_file w q); [| now apply IH].
    destruct (imgur w (net_log w) _); [| reflexivity].
    now apply IH.
Qed.


(** C9.  Discovery looks at names only: an entry with an image suffix is
    in its result also when it is not a regular file (a directory named
    [photo.jpg]), and the result is the same in every world that lists
    the directory alike.  The upload loop then passes over that entry: the
    run is the run without it, so no upload is requested for it. *)
Theorem non_file_listed_then_skipped (w : World) (d : Path)
        (entries : list Path) (p : Path) :
  fs_iterdir w d = Entries entries ->
  In p entries ->
  is_image_path p = true ->
  fs_is_file w p = false ->
  (forall w2, fs_iterdir w2 d = fs_iterdir w d ->
              fst (get_image_paths d w2) = fst (get_image_paths d w))
  /\ exists l1 l2,
      get_image_paths d w = (Return (l1 ++ p :: l2)%list, w)
      /\ forall config album_name public,
          imgur_upload (l1 ++ p :: l2)%list config album_name public w
          = imgur_upload (l1 ++ l2)%list config album_name public w.
Proof.
  intros Hls Hin Himg Hfile. split.
  - intros w2 H2. rewrite Hls in H2.
    now rewrite (get_image_paths_eq w d entries Hls),
                (get_image_paths_eq w2 d entries H2).
  - assert (Hres : In p (filter is_image_path (Natsort.natsorted entries))).
    { apply filter_In. split; [| exact Himg].
      now apply (Permutation_in _ (Permutation_sym (natsorted_perm entries))). }
    apply in_split in Hres as [l1 [l2 Hres]]. exists l1, l2. split.
    + now rewrite (get_image_paths_eq w d entries Hls), Hres.
    + intros config album public0. unfold imgur_upload, bind.
      now rewrite (upload_images_skip _ p l1 l2 [] w Hfile).
Qed.

(** ** The configuration file *)

(** *** Writing a token and reading it back *)

Lemma scanstring_encode_char (a : ascii) (begin : nat) (acc : Json.ustr)
      (x : ascii) (rest : string) :
  Json.scanstring begin acc (Json.encode_char (Text.code a) ++ String x rest)
  = Json.scanstring begin (acc ++ [Text.code a])%list (String x rest).
Proof. each_char a; reflexivity. Qed.

Lemma append_cons_shape (s : string) (c : ascii) (r : string) :
  exists x r', s ++ String c r = String x r'.
Proof. destruct s; simpl; eauto. Qed.

(** The scanner reads the encoding of a text back, up to the closing
    quote. *)
Lemma scanstring_encode_chars (t : string) :
  forall (begin : nat) (acc : Json.ustr) (rest : string),
    Json.scanstring begin acc
      (Json.encode_chars (Json.ustr_of t) ++ String Json.dquote rest)
    = Json.Found (acc ++ Json.ustr_of t)%list rest.
Proof.
  induction t as [| a t IH]; intros begin acc rest.
  - cbn. now rewrite app_nil_r.
  - change (Json.ustr_of (String a t)) with (Text.code a :: Json.ustr_of t).
    cbn [Json.encode_chars]. rewrite append_assoc.
    destruct (append_cons_shape (Json.encode_chars (Json.ustr_of t))
                                Json.dquote rest) as [x [r Hx]].
    rewrite Hx, scanstring_encode_char, <- Hx, IH, <- app_assoc.
    reflexivity.
Qed.

Lemma scan_once_string (t : string) (fuel : nat) (rest : string) :
  Json.scan_once (S fuel)
    (String Json.dquote
       (Json.encode_chars (Json.ustr_of t) ++ String Json.dquote rest))
  = Json.Found (Json.PStr (Json.ustr_of t)) rest.
Proof.
  cbn [Json.scan_once].
  change (Ascii.eqb Json.dquote Json.dquote) with true. cbv iota.
  now rewrite scanstring_encode_chars.
Qed.

Lemma eat_same (c : ascii) (r : string) : Json.eat c (String c r) = Some r.
Proof. unfold Json.eat. now rewrite Ascii.eqb_refl. Qed.

Lemma parse_object_one (k v : string) (fuel : nat)
      (pairs : list (Json.ustr * Json.pyval)) :
  Json.parse_object (S (S fuel)) pairs
    (String Json.dquote
       (Json.encode_chars (Json.ustr_of k)
          ++ String Json.dquote
               (": " ++ String Json.dquote
                  (Json.encode_chars (Json.ustr_of v)
                     ++ String Json.dquote "}"))))
  = Json.Found (Json.PDict (Json.dict_set (Json.ustr_of k)
                              (Json.PStr (Json.ustr_of v)) pairs)) "".
Proof.
  cbn [Json.parse_object]. rewrite eat_same, scanstring_encode_chars.
  change (Json.skip_ws (": " ++ ?x)) with (String ":" (String " " x)).
  rewrite eat_same.
  change (Json.skip_ws (String " " (String Json.dquote ?x)))
    with (String Json.dquote x).
  rewrite scan_once_string. reflexivity.
Qed.

Lemma scan_once_object_one (k v : string) (fuel : nat) :
  Json.scan_once (S (S (S fuel)))
    (String "{" (String Json.dquote
       (Json.encode_chars (Json.ustr_of k)
          ++ String Json.dquote
               (": " ++ String Json.dquote
                  (Json.encode_chars (Json.ustr_of v)
                     ++ String Json.dquote "}")))))
  = Json.Found (Json.PDict [(Json.ustr_of k, Json.PStr (Json.ustr_of v))]) "".
Proof.
  cbn [Json.scan_once].
  change (Ascii.eqb "{" Json.dquote) with false.
  change (Ascii.eqb "{" "{") with true. cbv iota.
  change (Json.skip_ws (String Json.dquote ?x)) with (String Json.dquote x).
  change (Json.eat "}" (String Json.dquote ?x)) with (@None string).
  cbv iota. now rewrite parse_object_one.
Qed.

(** What [to_json_file] writes for a text token, [json.loads] reads back
    as the same dictionary. *)
Lemma loads_dumps_config (t : string) :
  Json.loads (Json.dumps (asdict (mkConfig (Json.PStr (Json.ustr_of t)))))
  = Json.Loaded (asdict (mkConfig (Json.PStr (Json.ustr_of t)))).
Proof.
  unfold Json.loads.
  set (doc := Json.dumps _).
  assert (Hdoc : doc = String "{" (String Json.dquote
            (Json.encode_chars (Json.ustr_of "imgur_access_token")
               ++ String Json.dquote
                    (": " ++ String Json.dquote
                       (Json.encode_chars (Json.ustr_of t)
                          ++ String Json.dquote "}"))))).
  { unfold doc. cbn. now rewrite append_assoc. }
  assert (Hlen : exists n, 2 * String.length doc = S (S n)).
  { rewrite Hdoc. cbn [String.length]. eexists. simpl. reflexivity. }
  destruct Hlen as [n Hn]. rewrite Hn. clearbody doc. subst doc.
  change (Json.skip_ws (String "{" ?x)) with (String "{" x).
  now rewrite scan_once_object_one.
Qed.

(** *** Loading *)

Lemma from_json_file_eq (path : Path) (w : World) :
  from_json_file path w
  = match fs_file w path with
    | Absent => (Raise (OSError "No such file or directory"), w)
    | Unreadable msg => (Raise (OSError msg), w)
    | Undecodable msg => (Raise (UnicodeDecodeError msg), w)
    | Content text =>
        match Json.loads text with
        | Json.Loaded v => Config_init v w
        | Json.DecodeError e => (Raise (JSONDecodeError e), w)
        | Json.RecursionError => (Raise RecursionError, w)
        end
    end.
Proof.
  unfold from_json_file, json_load, bind, read_text.
  destruct (fs_file w path); try reflexivity.
  now destruct (Json.loads text).
Qed.

Lemma Config_init_cases (data : Json.pyval) (w : World) :
  (exists config, Config_init data w = (Return config, w))
  \/ (exists msg, Config_init data w = (Raise (TypeError msg), w)).
Proof.
  destruct data; try (right; eexists; reflexivity).
  unfold Config_init.
  destruct (forallb _ items); [| right; eexists; reflexivity].
  left. destruct (Json.dict_get token_key items); eexists; reflexivity.
Qed.

Lemma load_config_eq (w : World) :
  load_config w
  = match fs_file w (config_path_of w) with
    | Absent => (Return Config_default, w)
    | Unreadable msg =>
        (Exit 1, emit (Line msg) (emit (Line read_error_message) w))
    | Undecodable msg => (Raise (UnicodeDecodeError msg), w)
    | Content text =>
        match Json.loads text with
        | Json.Loaded v => Config_init v w
        | Json.DecodeError e =>
            (Exit 1,
             emit (Line (Json.errmsg e)) (emit (Line read_error_message) w))
        | Json.RecursionError => (Raise RecursionError, w)
        end
    end.
Proof.
  unfold load_config, bind at 1, get_config_path. fold (config_path_of w).
  unfold bind at 1, path_exists.
  destruct (fs_file w (config_path_of w)) eqn:Hf; try reflexivity.
  - unfold try_except. rewrite from_json_file_eq, Hf. reflexivity.
  - unfold try_except. rewrite from_json_file_eq, Hf. reflexivity.
  - unfold try_except. rewrite from_json_file_eq, Hf.
    destruct (Json.loads text); try reflexivity.
    destruct (Config_init_cases v w) as [[c ->] | [msg ->]]; reflexivity.
Qed.


(** C6.  Round trip: after [to_json_file] has written a [Config] with a
    text token, [from_json_file] on the same path, and [load_config] when
    the path is the configuration path, return a [Config] with that
    token. *)
Theorem config_round_trip (t : string) (w : World) (path : Path) :
  fs_write_error w path = None ->
  let config := mkConfig (Json.PStr (Json.ustr_of t)) in
  let saved := to_json_file config path w in
  fst saved = Return tt
  /\ from_json_file path (snd saved) = (Return config, snd saved)
  /\ (path = config_path_of w ->
      load_config (snd saved) = (Return config, snd saved)).
Proof.
  intros Hw config saved.
  assert (Hsaved : saved
                   = (Return tt,
                      set_file path (Content (Json.dumps (asdict config))) w)).
  { unfold saved, to_json_file, write_text. now rewrite Hw. }
  rewrite Hsaved. cbn [fst snd].
  assert (Hfile : fs_file (set_file path (Content (Json.dumps (asdict config))) w)
                          path
                  = Content (Json.dumps (asdict config))).
  { cbn. now rewrite String.eqb_refl. }
  assert (Hinit : forall w', Config_init (asdict config) w' = (Return config, w')).
  { reflexivity. }
  split; [reflexivity | split].
  - rewrite from_json_file_eq, Hfile. unfold config at 1.
    rewrite loads_dumps_config. apply Hinit.
  - intros ->. rewrite load_config_eq.
    change (config_path_of (set_file _ _ w)) with (config_path_of w).
    rewrite Hfile. unfold config at 1.
    rewrite loads_dumps_config. apply Hinit.
Qed.

Lemma ustr_eqb_eq (a b : Json.ustr) : Json.ustr_eqb a b = true <-> a = b.
Proof.
  unfold Json.ustr_eqb. destruct (list_eq_dec N.eq_dec a b); split; congruence.
Qed.

(** C4, as amended.  Construction from the JSON object of the file
    rejects a key that is not a field with a [TypeError]; an object
    without unknown keys is accepted, and when [imgur_access_token] is
    missing from it the result is the default [Config]. *)
Theorem from_json_file_keys (w : World) (path : Path) (text : string)
        (items : list (Json.ustr * Json.pyval)) :
  fs_file w path = Content text ->
  Json.loads text = Json.Loaded (Json.PDict items) ->
  ((exists k v, In (k, v) items /\ k <> token_key) ->
   exists msg, from_json_file path w = (Raise (TypeError msg), w))
  /\ ((forall k v, In (k, v) items -> k = token_key) ->
      from_json_file path w
      = (Return match Json.dict_get token_key items with
                | Some v => mkConfig v
                | None => Config_default
                end, w)).
Proof.
  intros Hf Hl. rewrite from_json_file_eq, Hf, Hl. unfold Config_init.
  split.
  - intros [k [v [Hin Hne]]].
    destruct (forallb _ items) eqn:Hall; [| eexists; reflexivity].
    rewrite forallb_forall in Hall. specialize (Hall _ Hin).
    apply ustr_eqb_eq in Hall. contradiction.
  - intro Hall.
    assert (H : forallb (fun kv => Json.ustr_eqb (fst kv) token_key) items
                = true).
    { apply forallb_forall. intros [k v] Hin.
      apply ustr_eqb_eq. exact (Hall k v Hin). }
    rewrite H. now destruct (Json.dict_get token_key items).
Qed.

(** ** The run of [main] *)

Lemma bind_assoc {A B C : Type} (c : M A) (k1 : A -> M B) (k2 : B -> M C)
      (w : World) :
  bind (bind c k1) k2 w = bind c (fun a => bind (k1 a) k2) w.
Proof. unfold bind. now destruct (c w) as [[a | code | e] w']. Qed.

Lemma main_halves (args : Args) (w : World) :
  show_config_path args = false ->
  main args w = (config <- configure args ;; proceed args config) w.
Proof.
  intro H. unfold main, configure. rewrite H, bind_assoc. reflexivity.
Qed.

Lemma load_config_outcomes (w : World) :
  (exists config, load_config w = (Return config, w))
  \/ (exists a b, load_config w = (Exit 1, emit (Line a) (emit (Line b) w)))
  \/ (exists e, load_config w = (Raise e, w)).
Proof.
  rewrite load_config_eq.
  destruct (fs_file w (config_path_of w)); eauto.
  destruct (Json.loads text); eauto.
  destruct (Config_init_cases v w) as [[c ->] | [msg ->]]; eauto.
Qed.

Lemma configure_eq (args : Args) (w : World) :
  configure args w
  = match load_config w with
    | (Return config, w1) =>
        match access_token args with
        | Some token =>
            if negb (String.eqb token "") then
              match fs_write_error w1 (config_path_of w1) with
              | Some msg => (Raise (OSError msg), w1)
              | None =>
                  (Return (mkConfig (Json.PStr (Json.ustr_of token))),
                   set_file (config_path_of w1) (token_file token) w1)
              end
            else (Return config, w1)
        | None => (Return config, w1)
        end
    | (Exit code, w1) => (Exit code, w1)
    | (Raise e, w1) => (Raise e, w1)
    end.
Proof.
  unfold configure, bind at 1.
  destruct (load_config w) as [[config | code | e] w1]; try reflexivity.
  destruct (access_token args) as [token |]; [| reflexivity].
  destruct (negb (String.eqb token "")); [| reflexivity].
  unfold bind, get_config_path, to_json_file, write_text.
  fold (config_path_of w1).
  now destruct (fs_write_error w1 (config_path_of w1)).
Qed.

Lemma quiet_refl (w : World) : quiet w w.
Proof. repeat split. exists []. cbn. now rewrite app_nil_r. Qed.

Lemma quiet_set_file (w : World) (path : Path) (st : file_state) :
  quiet w (set_file path st w).
Proof. repeat split. exists []. cbn. now rewrite app_nil_r. Qed.

Lemma quiet_two_lines (w : World) (a b : string) :
  quiet w (emit (Line a) (emit (Line b) w)).
Proof. repeat split. exists [b; a]. cbn. now rewrite <- app_assoc. Qed.

(** The configuration phase is quiet, and it ends with a configuration
    and nothing printed, with exit code 1 or with an exception. *)
Lemma configure_quiet (args : Args) (w : World) :
  exists o w1,
    configure args w = (o, w1)
    /\ quiet w w1
    /\ fs_is_dir w1 = fs_is_dir w
    /\ fs_iterdir w1 = fs_iterdir w
    /\ match o with
       | Return _ => stdout w1 = stdout w
       | Exit code => code = 1%Z
       | Raise _ => True
       end.
Proof.
  rewrite configure_eq.
  destruct (load_config_outcomes w) as [[c ->] | [[a [b ->]] | [e ->]]];
    [destruct (access_token args) as [token |];
     [destruct (negb (String.eqb token ""));
      [destruct (fs_write_error w (config_path_of w)) |] |] | |];
    do 2 eexists; (split; [reflexivity |]);
    (split; [first [apply quiet_refl | apply quiet_set_file
                    | apply quiet_two_lines] |]);
    repeat split.
Qed.

Lemma quiet_emit_line (w w1 : World) (line : string) :
  quiet w w1 -> quiet w (emit (Line line) w1).
Proof.
  intros [Hn [Hi [lines Ho]]]. repeat split; try assumption.
  exists (lines ++ [line])%list. cbn. now rewrite Ho, map_app, <- app_assoc.
Qed.

Lemma proceed_no_directory (args : Args) (config : Config) (w : World)
      (p : string) :
  dir_path args = Some p ->
  fs_is_dir w p = false ->
  proceed args config w = (Exit 1, emit (Line no_directory_message) w).
Proof.
  intros Hp Hd. unfold proceed, bind, Path_new, is_dir, ret. rewrite Hp.
  cbn. now rewrite Hd.
Qed.

Lemma no_images_sorted (entries : list Path) :
  filter is_image_path entries = [] ->
  filter is_image_path (Natsort.natsorted entries) = [].
Proof.
  intro H. apply Permutation_nil. rewrite <- H.
  apply Permutation_sym, filter_perm, natsorted_perm.
Qed.

Lemma proceed_no_images (args : Args) (config : Config) (w : World)
      (p : string) (entries : list Path) :
  dir_path args = Some p ->
  fs_is_dir w p = true ->
  fs_iterdir w p = Entries entries ->
  filter is_image_path entries = [] ->
  proceed args config w = (Exit 1, emit (Line no_images_message) w).
Proof.
  intros Hp Hd Hls Hnone. unfold proceed, bind at 1, Path_new. rewrite Hp.
  cbn [ret]. unfold bind at 1, is_dir. rewrite Hd. cbn [negb].
  unfold bind at 1. rewrite (get_image_paths_eq w p entries Hls).
  now rewrite (no_images_sorted entries Hnone).
Qed.

(** C8.  A [dir_path] that is not a directory: the run ends with exit
    status 1 and, up to there, is quiet: nothing is sent to Imgur, no
    line of input is read and no prompt is shown.  When the configuration
    phase has passed, what the run does after it is to print the
    directory error and to exit with code 1. *)
Theorem not_a_directory_exits (args : Args) (w : World) (p : string) :
  show_config_path args = false ->
  dir_path args = Some p ->
  fs_is_dir w p = false ->
  let run := main args w in
  exit_status (fst run) = 1%Z
  /\ quiet w (snd run)
  /\ (forall config w1,
         configure args w = (Return config, w1) ->
         run = (Exit 1, emit (Line no_directory_message) w1)).
Proof.
  intros Hshow Hp Hd run. unfold run. rewrite (main_halves args w Hshow).
  unfold bind.
  destruct (configure_quiet args w) as [o [w1 [Heq [Hq [Hdir [_ Ho]]]]]].
  rewrite Heq.
  destruct o as [config | code | e].
  - rewrite (proceed_no_directory args config w1 p Hp)
      by (now rewrite Hdir).
    split; [reflexivity |]. split; [now apply quiet_emit_line |].
    intros config' w1' H. now injection H as _ <-.
  - subst code. split; [reflexivity |]. split; [exact Hq |].
    intros config' w1' H. discriminate H.
  - split; [reflexivity |]. split; [exact Hq |].
    intros config' w1' H. discriminate H.
Qed.

(** C7.  A directory without an entry that has an image suffix: the run
    ends with exit status 1 and is quiet, so nothing is sent to Imgur.
    When the configuration phase has passed, what the run does after it is
    to print the message that the directory holds no images and to exit
    with code 1. *)
Theorem no_images_exits (args : Args) (w : World) (p : string)
        (entries : list Path) :
  show_config_path args = false ->
  dir_path args = Some p ->
  fs_is_dir w p = true ->
  fs_iterdir w p = Entries entries ->
  filter is_image_path entries = [] ->
  let run := main args w in
  exit_status (fst run) = 1%Z
  /\ quiet w (snd run)
  /\ (forall config w1,
         configure args w = (Return config, w1) ->
         run = (Exit 1, emit (Line no_images_message) w1)).
Proof.
  intros Hshow Hp Hd Hls Hnone run. unfold run.
  rewrite (main_halves args w Hshow). unfold bind.
  destruct (configure_quiet args w) as [o [w1 [Heq [Hq [Hdir [Hit Ho]]]]]].
  rewrite Heq.
  destruct o as [config | code | e].
  - rewrite (proceed_no_images args config w1 p entries Hp)
      by (rewrite ?Hdir, ?Hit; assumption).
    split; [reflexivity |]. split; [now apply quiet_emit_line |].
    intros config' w1' H. now injection H as _ <-.
  - subst code. split; [reflexivity |]. split; [exact Hq |].
    intros config' w1' H. discriminate H.
  - split; [reflexivity |]. split; [exact Hq |].
    intros config' w1' H. discriminate H.
Qed.

(** A world whose configuration file holds what [to_json_file] writes
    for a token loads that token. *)
Lemma stored_token_loads (token : string) (w : World) :
  fs_file w (config_path_of w) = token_file token ->
  load_config w = (Return (mkConfig (Json.PStr (Json.ustr_of token))), w).
Proof.
  intro H. rewrite load_config_eq, H. unfold token_file.
  now rewrite loads_dumps_config.
Qed.

(** C10, as amended.  With a non-empty [--access-token], a stored
    configuration that loads (or none) and a configuration file that can
    be written, the token is written before the directory is checked: a
    [dir_path] that is not a directory ends the run with exit code 1 and
    the directory error, and the configuration file holds the new token,
    which the next run loads. *)
Theorem token_stored_before_directory_check (args : Args) (w : World)
        (token p : string) (config0 : Config) :
  show_config_path args = false ->
  access_token args = Some token ->
  token <> "" ->
  dir_path args = Some p ->
  fs_is_dir w p = false ->
  load_config w = (Return config0, w) ->
  fs_write_error w (config_path_of w) = None ->
  let run := main args w in
  run = (Exit 1, emit (Line no_directory_message)
                      (set_file (config_path_of w) (token_file token) w))
  /\ fs_file (snd run) (config_path_of w) = token_file token
  /\ load_config (snd run)
     = (Return (mkConfig (Json.PStr (Json.ustr_of token))), snd run).
Proof.
  intros Hshow Htok Hne Hp Hd Hload Hwr run.
  assert (Hrun : run = (Exit 1, emit (Line no_directory_message)
                          (set_file (config_path_of w) (token_file token) w))).
  { unfold run. rewrite (main_halves args w Hshow). unfold bind.
    rewrite configure_eq, Hload, Htok, Hwr.
    destruct (String.eqb_spec token ""); [contradiction |]. cbn [negb].
    apply (proceed_no_directory args _ _ p Hp). exact Hd. }
  assert (Hfile : fs_file (snd run) (config_path_of w) = token_file token).
  { rewrite Hrun. cbn. now rewrite String.eqb_refl. }
  split; [exact Hrun |]. split; [exact Hfile |].
  apply stored_token_loads.
  replace (config_path_of (snd run)) with (config_path_of w);
    [exact Hfile | now rewrite Hrun].
Qed.

(** ** [json.loads] never runs out of fuel *)

Lemma skip_ws_length (s : string) :
  String.length (Json.skip_ws s) <= String.length s.
Proof.
  induction s as [| c s IH]; simpl; [lia |].
  destruct (Json.is_ws c); simpl; lia.
Qed.

Lemma eat_length (c : ascii) (s r : string) :
  Json.eat c s = Some r -> String.length s = S (String.length r).
Proof.
  destruct s as [| a s]; simpl; [discriminate |].
  destruct (Ascii.eqb a c); [| discriminate]. now intros [= ->].
Qed.

Lemma drop_length (n : nat) (s : string) :
  String.length (Text.drop n s) <= String.length s.
Proof.
  revert s. induction n as [| n IH]; intros [| c s]; simpl; auto.
Qed.

Lemma scanstring_length (n : nat) :
  forall (s : string) (begin : nat) (acc u : Json.ustr) (rest : string),
    String.length s <= n ->
    Json.scanstring begin acc s = Json.Found u rest ->
    String.length rest < String.length s.
Proof.
  induction n as [| n IH]; intros s begin acc u rest Hn H.
  - destruct s; [discriminate H | simpl in Hn; lia].
  - destruct s as [| c r]; [discriminate H |].
    cbn [Json.scanstring] in H. simpl in Hn |- *.
    repeat match type of H with
           | Json.Found _ _ = Json.Found _ _ =>
               injection H as _ <-; lia
           | Json.Fail _ _ = _ => discriminate H
           | Json.scanstring _ _ ?x = Json.Found _ _ =>
               apply IH in H; simpl in *; lia
           | context [if ?b then _ else _] => destruct b
           | context [match ?x with _ => _ end] => destruct x
           end.
Qed.

Lemma span_digits_length (s : string) :
  String.length (snd (Json.span_digits s)) <= String.length s.
Proof.
  induction s as [| c s IH]; simpl; [lia |].
  destruct (Text.isdigit c); [| simpl; lia].
  destruct (Json.span_digits s); simpl in *. lia.
Qed.

Lemma match_frac_length (s : string) :
  String.length (snd (Json.match_frac s)) <= String.length s.
Proof.
  destruct s as [| c r]; simpl; [lia |].
  destruct (Ascii.eqb c "."); [| simpl; lia].
  pose proof (span_digits_length r) as H.
  destruct (Json.span_digits r) as [[| d ds] rest]; simpl in *; lia.
Qed.

Lemma match_exp_length (s : string) :
  String.length (snd (Json.match_exp s)) <= String.length s.
Proof.
  destruct s as [| e r]; simpl; [lia |].
  destruct (Ascii.eqb e "e" || Ascii.eqb e "E")%bool; [| simpl; lia].
  destruct r as [| g r'].
  - simpl. lia.
  - destruct (Ascii.eqb g "-" || Ascii.eqb g "+")%bool.
    + pose proof (span_digits_length r') as H.
      destruct (Json.span_digits r') as [[| d ds] rest]; simpl in *; lia.
    + pose proof (span_digits_length (String g r')) as H.
      destruct (Json.span_digits (String g r')) as [[| d ds] rest];
        simpl in *; lia.
Qed.

Lemma match_integer_length (s i r : string) :
  Json.match_integer s = Some (i, r) -> String.length r < String.length s.
Proof.
  destruct s as [| c s']; simpl; [discriminate |].
  destruct (Ascii.eqb c "0"); [intros [= _ <-]; lia |].
  destruct (Text.between 49 57 c); [| discriminate].
  pose proof (span_digits_length s') as H.
  destruct (Json.span_digits s') as [d rest]. intros [= _ <-]. simpl in H. lia.
Qed.

Lemma match_number_length (s : string) (v : Json.pyval) (rest : string) :
  Json.match_number s = Json.Found v rest ->
  String.length rest <= String.length s.
Proof.
  unfold Json.match_number.
  set (split := match s with
                | String c r => if Ascii.eqb c "-" then (true, r) else (false, s)
                | EmptyString => (false, s)
                end).
  assert (Hbody : String.length (snd split) <= String.length s).
  { unfold split. destruct s as [| c r]; simpl; [lia |].
    destruct (Ascii.eqb c "-"); simpl; lia. }
  destruct split as [neg body]. simpl in Hbody.
  destruct (Json.match_integer body) as [[integer r1] |] eqn:Hi;
    [| discriminate].
  apply match_integer_length in Hi.
  pose proof (match_frac_length r1) as Hf.
  destruct (Json.match_frac r1) as [frac r2]. simpl in Hf.
  pose proof (match_exp_length r2) as He.
  destruct (Json.match_exp r2) as [exp r3]. simpl in He.
  destruct frac, exp; intros [= _ <-]; lia.
Qed.

(** A scanner returns a remainder of its input. *)
Lemma scanners_length (fuel : nat) :
  (forall s v rest,
      Json.scan_once fuel s = Json.Found v rest ->
      String.length rest <= String.length s)
  /\ (forall s pairs v rest,
         Json.parse_object fuel pairs s = Json.Found v rest ->
         String.length rest <= String.length s)
  /\ (forall s items v rest,
         Json.parse_array fuel items s = Json.Found v rest ->
         String.length rest <= String.length s).
Proof.
  induction fuel as [| f [IHs [IHo IHa]]];
    [repeat split; intros; discriminate |].
  split; [| split].
  - intros s v rest H. cbn [Json.scan_once] in H.
    destruct s as [| c r]; [discriminate H |].
    destruct (Ascii.eqb c Json.dquote).
    { destruct (Json.scanstring _ [] r) as [u r' | |] eqn:Hs;
        try discriminate H.
      apply (scanstring_length _ _ _ _ _ _ (le_n _)) in Hs.
      injection H as _ <-. simpl. lia. }
    pose proof (skip_ws_length r) as Hws.
    destruct (Ascii.eqb c "{").
    { destruct (Json.eat "}" (Json.skip_ws r)) as [r' |] eqn:He.
      - apply eat_length in He. injection H as _ <-. simpl. lia.
      - apply IHo in H. simpl. lia. }
    destruct (Ascii.eqb c "[").
    { destruct (Json.eat "]" (Json.skip_ws r)) as [r' |] eqn:He.
      - apply eat_length in He. injection H as _ <-. simpl. lia.
      - apply IHa in H. simpl. lia. }
    repeat match type of H with
           | (if ?b then Json.Found _ (Text.drop ?n ?s) else _) = _ =>
               destruct b; [injection H as _ <-; exact (drop_length n s) |]
           end.
    exact (match_number_length _ _ _ H).
  - intros s pairs v rest H. cbn [Json.parse_object] in H.
    destruct (Json.eat Json.dquote s) as [r |] eqn:He; [| discriminate H].
    apply eat_length in He.
    destruct (Json.scanstring _ [] r) as [key r1 | |] eqn:Hs;
      try discriminate H.
    apply (scanstring_length _ _ _ _ _ _ (le_n _)) in Hs.
    pose proof (skip_ws_length r1) as Hw1.
    destruct (Json.eat ":" (Json.skip_ws r1)) as [r3 |] eqn:He3;
      [| discriminate H].
    apply eat_length in He3.
    pose proof (skip_ws_length r3) as Hw3.
    destruct (Json.scan_once f (Json.skip_ws r3)) as [value r5 | |] eqn:Hv;
      try discriminate H.
    apply IHs in Hv. pose proof (skip_ws_length r5) as Hw5.
    destruct (Json.eat "}" (Json.skip_ws r5)) as [r7 |] eqn:He7.
    { apply eat_length in He7. injection H as _ <-. lia. }
    destruct (Json.eat "," (Json.skip_ws r5)) as [r7 |] eqn:He8;
      [| discriminate H].
    apply eat_length in He8. pose proof (skip_ws_length r7) as Hw7.
    apply IHo in H. lia.
  - intros s items v rest H. cbn [Json.parse_array] in H.
    destruct (Json.scan_once f s) as [value r1 | |] eqn:Hv;
      try discriminate H.
    apply IHs in Hv. pose proof (skip_ws_length r1) as Hw1.
    destruct (Json.eat "]" (Json.skip_ws r1)) as [r3 |] eqn:He3.
    { apply eat_length in He3. injection H as _ <-. lia. }
    destruct (Json.eat "," (Json.skip_ws r1)) as [r3 |] eqn:He4;
      [| discriminate H].
    apply eat_length in He4. pose proof (skip_ws_length r3) as Hw3.
    apply IHa in H. lia.
Qed.

Lemma scanstring_answers (n : nat) :
  forall (s : string) (begin : nat) (acc : Json.ustr),
    String.length s <= n ->
    Json.scanstring begin acc s <> Json.Exhausted.
Proof.
  induction n as [| n IH]; intros s begin acc Hn.
  - destruct s; [discriminate | simpl in Hn; lia].
  - destruct s as [| c r]; [discriminate |].
    cbn [Json.scanstring]. simpl in Hn.
    repeat match goal with
           | |- Json.Found _ _ <> _ => discriminate
           | |- Json.Fail _ _ <> _ => discriminate
           | |- Json.scanstring _ _ ?x <> _ => apply IH; simpl in *; lia
           | |- context [if ?b then _ else _] => destruct b
           | |- context [match ?x with _ => _ end] => destruct x
           end.
Qed.

Lemma match_number_answers (s : string) :
  Json.match_number s <> Json.Exhausted.
Proof.
  unfold Json.match_number.
  destruct (match s with
            | String c r => if Ascii.eqb c "-" then (true, r) else (false, s)
            | EmptyString => (false, s)
            end) as [neg body].
  destruct (Json.match_integer body) as [[integer r1] |]; [| discriminate].
  destruct (Json.match_frac r1) as [frac r2].
  destruct (Json.match_exp r2) as [exp r3].
  destruct frac, exp; discriminate.
Qed.

(** With two units of fuel for every character, and one more, no scanner
    comes to the end of its fuel. *)
Lemma scanners_fuel (fuel : nat) :
  (forall s, 2 * String.length s < fuel ->
             Json.scan_once fuel s <> Json.Exhausted)
  /\ (forall s pairs, 2 * String.length s + 1 < fuel ->
                      Json.parse_object fuel pairs s <> Json.Exhausted)
  /\ (forall s items, 2 * String.length s + 1 < fuel ->
                      Json.parse_array fuel items s <> Json.Exhausted).
Proof.
  induction fuel as [| f [IHs [IHo IHa]]];
    [repeat split; intros; lia |].
  destruct (scanners_length f) as [Ls [Lo La]].
  split; [| split].
  - intros s Hf. cbn [Json.scan_once].
    destruct s as [| c r]; [discriminate |]. simpl in Hf.
    destruct (Ascii.eqb c Json.dquote).
    { pose proof (scanstring_answers _ r (String.length (String c r)) []
                                     (le_n _)) as Hs.
      destruct (Json.scanstring _ [] r); [discriminate | discriminate |].
      now elim Hs. }
    pose proof (skip_ws_length r) as Hws.
    destruct (Ascii.eqb c "{").
    { destruct (Json.eat "}" (Json.skip_ws r)); [discriminate |].
      apply IHo. lia. }
    destruct (Ascii.eqb c "[").
    { destruct (Json.eat "]" (Json.skip_ws r)); [discriminate |].
      apply IHa. lia. }
    repeat match goal with
           | |- (if ?b then Json.Found _ _ else _) <> _ =>
               destruct b; [discriminate |]
           end.
    apply match_number_answers.
  - intros s pairs Hf. cbn [Json.parse_object].
    destruct (Json.eat Json.dquote s) as [r |] eqn:He; [| discriminate].
    apply eat_length in He.
    pose proof (scanstring_answers _ r (String.length s) [] (le_n _)) as Hs.
    destruct (Json.scanstring _ [] r) as [key r1 | |] eqn:Hk;
      [| discriminate | now elim Hs].
    apply (scanstring_length _ _ _ _ _ _ (le_n _)) in Hk.
    pose proof (skip_ws_length r1) as Hw1.
    destruct (Json.eat ":" (Json.skip_ws r1)) as [r3 |] eqn:He3;
      [| discriminate].
    apply eat_length in He3.
    pose proof (skip_ws_length r3) as Hw3.
    assert (Hv : Json.scan_once f (Json.skip_ws r3) <> Json.Exhausted)
      by (apply IHs; lia).
    destruct (Json.scan_once f (Json.skip_ws r3)) as [value r5 | |] eqn:Hr;
      [| discriminate | now elim Hv].
    apply Ls in Hr. pose proof (skip_ws_length r5) as Hw5.
    destruct (Json.eat "}" (Json.skip_ws r5)); [discriminate |].
    destruct (Json.eat "," (Json.skip_ws r5)) as [r7 |] eqn:He7;
      [| discriminate].
    apply eat_length in He7. pose proof (skip_ws_length r7) as Hw7.
    apply IHo. lia.
  - intros s items Hf. cbn [Json.parse_array].
    assert (Hv : Json.scan_once f s <> Json.Exhausted) by (apply IHs; lia).
    destruct (Json.scan_once f s) as [value r1 | |] eqn:Hr;
      [| discriminate | now elim Hv].
    apply Ls in Hr. pose proof (skip_ws_length r1) as Hw1.
    destruct (Json.eat "]" (Json.skip_ws r1)); [discriminate |].
    destruct (Json.eat "," (Json.skip_ws r1)) as [r3 |] eqn:He3;
      [| discriminate].
    apply eat_length in He3. pose proof (skip_ws_length r3) as Hw3.
    apply IHa. lia.
Qed.

(** [json.loads] answers for every document: a value or a
    [JSONDecodeError]. *)
Lemma loads_total (doc : string) : Json.loads doc <> Json.RecursionError.
Proof.
  unfold Json.loads.
  pose proof (skip_ws_length doc) as Hws.
  destruct (scanners_fuel (S (2 * String.length doc))) as [Hs _].
  specialize (Hs (Json.skip_ws doc) ltac:(lia)).
  destruct (Json.scan_once _ (Json.skip_ws doc)) as [v rest | |];
    [| discriminate | now elim Hs].
  destruct (Json.skip_ws rest); discriminate.
Qed.

(** ** The keys of natsort are well formed *)

Lemma alternates_runs (l : list (bool * string)) (k : bool) :
  alternating l ->
  match l with
  | [] => True
  | a :: _ => fst a = k
  end ->
  Natsort.alternates k (map Natsort.component_transform l) = true.
Proof.
  revert k. induction l as [| a l IH]; intros k Halt Hk; [reflexivity |].
  cbn [map Natsort.alternates]. rewrite is_num_component, Hk, eqb_reflx.
  cbn [andb]. apply IH.
  - destruct l as [| b l]; [exact I |]. exact (proj2 Halt).
  - destruct l as [| b l]; [exact I |]. destruct Halt as [Hne _].
    rewrite Hk in Hne. destruct k, (fst b); simpl; congruence.
Qed.

(** A key is text, number, text, ... and starts with a text. *)
Lemma natsort_key_alternates (s : string) :
  Natsort.alternates false (Natsort.natsort_key s) = true.
Proof.
  rewrite natsort_key_runs. pose proof (runs_alternating s) as Halt.
  destruct (Natsort.runs s) as [| [[] run] rest] eqn:E.
  - reflexivity.
  - cbn [head_sep app]. cbn [Natsort.alternates Natsort.is_num Natsort.sep].
    cbn [Bool.eqb andb negb]. now apply alternates_runs.
  - cbn [head_sep app]. now apply alternates_runs.
Qed.

(** On such keys Python's comparison of tuples raises no [TypeError],
    and its answer is the one of [key_lt]. *)
Lemma tuple_lt_key_lt (k1 : list Natsort.chunk) :
  forall (k2 : list Natsort.chunk) (b : bool),
    Natsort.alternates b k1 = true ->
    Natsort.alternates b k2 = true ->
    Natsort.tuple_lt k1 k2 = Some (Natsort.key_lt k1 k2).
Proof.
  induction k1 as [| a k1 IH]; intros [| c k2] b H1 H2; try reflexivity;
    [now destruct a |].
  cbn [Natsort.alternates] in H1, H2.
  apply andb_true_iff in H1 as [Ha H1'].
  apply andb_true_iff in H2 as [Hc H2'].
  apply eqb_prop in Ha. apply eqb_prop in Hc.
  unfold Natsort.key_lt, Natsort.key_compare in *.
  destruct a as [s | m], c as [t | n]; cbn in Ha, Hc; try congruence;
    cbn [Natsort.tuple_lt Natsort.lex_compare Natsort.chunk_compare].
  - destruct (Natsort.str_compare s t); try reflexivity.
    exact (IH _ _ H1' H2').
  - destruct (N.compare m n); try reflexivity. exact (IH _ _ H1' H2').
Qed.

Lemma natsorted_compares (a b : string) :
  Natsort.tuple_lt (Natsort.natsort_key a) (Natsort.natsort_key b)
  = Some (Natsort.key_lt (Natsort.natsort_key a) (Natsort.natsort_key b)).
Proof.
  apply (tuple_lt_key_lt _ _ false); apply natsort_key_alternates.
Qed.

(** ** The rounds of the confirmation loop *)

Lemma get_confirmation_loop_step (n : nat) (prompt : string)
      (default : option bool) (w : World) :
  get_confirmation_loop (S n) prompt default w
  = match stdin w with
    | [] => (Raise EOFError, emit (Prompt prompt) w)
    | line :: rest =>
        let asked := emit (Prompt prompt) (set_stdin rest w) in
        if Text.startswith (Text.strip (Text.lower line)) "y"
        then (Return true, asked)
        else if Text.startswith (Text.strip (Text.lower line)) "n"
        then (Return false, asked)
        else if (String.eqb line ""
                 && match default with Some _ => true | None => false end)%bool
        then (Return (match default with Some d => d | None => false end),
              asked)
        else get_confirmation_loop n prompt default
               (emit (Line "Invalid input. Please try again.") asked)
    end.
Proof.
  change (get_confirmation_loop (S n) prompt default w)
    with ((user_input <- input prompt ;;
           if Text.startswith (Text.strip (Text.lower user_input)) "y"
           then ret true
           else if Text.startswith (Text.strip (Text.lower user_input)) "n"
           then ret false
           else if (String.eqb user_input ""
                    && match default with Some _ => true | None => false end)%bool
           then ret (match default with Some d => d | None => false end)
           else
             print "Invalid input. Please try again." ;;;
             get_confirmation_loop n prompt default) w).
  unfold bind at 1, input.
  destruct (stdin w) as [| line rest]; [reflexivity |]. cbv zeta.
  destruct (Text.startswith _ "y"); [reflexivity |].
  destruct (Text.startswith _ "n"); [reflexivity |].
  destruct (String.eqb line "" && _)%bool; reflexivity.
Qed.

(** More rounds than lines plus one change nothing: the loop never comes
    to its last round with a line left to read. *)
Lemma get_confirmation_rounds (prompt : string) (default : option bool) :
  forall (lines : list string) (w : World) (extra : nat),
    stdin w = lines ->
    get_confirmation_loop (S (List.length lines) + extra) prompt default w
    = get_confirmation_loop (S (List.length lines)) prompt default w.
Proof.
  induction lines as [| line rest IH]; intros w extra Hin.
  - cbn [List.length Nat.add]. rewrite !get_confirmation_loop_step.
    now rewrite Hin.
  - cbn [List.length Nat.add]. rewrite !get_confirmation_loop_step.
    rewrite Hin. cbv zeta.
    destruct (Text.startswith _ "y"); [reflexivity |].
    destruct (Text.startswith _ "n"); [reflexivity |].
    destruct (String.eqb line "" && _)%bool; [reflexivity |].
    exact (IH (emit (Line "Invalid input. Please try again.")
                    (emit (Prompt prompt) (set_stdin rest w)))
              extra eq_refl).
Qed.

(** ** The statements at work *)

Lemma get_confirmation_gate_witness :
  fst (get_confirmation "Do you want to continue?" (Some false)
         (home_world ["maybe"; " Yes"]))
  = Return true.
Proof.
  destruct (get_confirmation_gate "Do you want to continue?" (Some false)
              (home_world ["maybe"; " Yes"]) "maybe" [" Yes"] eq_refl)
    as [_ [_ [_ Hagain]]].
  rewrite Hagain.
  - match goal with
    | |- fst (get_confirmation _ _ ?w) = _ =>
        destruct (get_confirmation_gate "Do you want to continue?"
                    (Some false) w " Yes" [] eq_refl) as [Hyes _]
    end.
    rewrite Hyes; [reflexivity |].
    exists " ", "Y"%char, "es". repeat split. simpl. auto.
  - intro H.
    apply (proj2 (answer_letter "y" "maybe" (or_introl eq_refl))) in H.
    vm_compute in H. discriminate H.
  - intro H.
    apply (proj2 (answer_letter "n" "maybe"
                    (or_intror (or_introl eq_refl)))) in H.
    vm_compute in H. discriminate H.
  - left. discriminate.
Defined.


Lemma non_file_listed_then_skipped_witness :
  fs_is_file (home_world []) "pics/photo.jpg" = false
  /\ exists l1 l2,
      get_image_paths "pics" (home_world [])
      = (Return (l1 ++ "pics/photo.jpg" :: l2)%list, home_world [])
      /\ imgur_upload (l1 ++ "pics/photo.jpg" :: l2)%list Config_default
                      (Some "Chapter 1") false (home_world [])
         = imgur_upload (l1 ++ l2)%list Config_default (Some "Chapter 1")
                        false (home_world []).
Proof.
  split; [reflexivity |].
  destruct (non_file_listed_then_skipped (home_world []) "pics" pics_entries
              "pics/photo.jpg" eq_refl)
    as [_ [l1 [l2 [Heq Hskip]]]].
  - simpl. auto.
  - reflexivity.
  - reflexivity.
  - exists l1, l2. split; [exact Heq | apply Hskip].
Defined.


Lemma config_round_trip_witness :
  let config := mkConfig (Json.PStr (Json.ustr_of "abc123")) in
  let w := home_world [] in
  let saved := to_json_file config (config_path_of w) w in
  load_config (snd saved) = (Return config, snd saved).
Proof.
  intros config w saved.
  destruct (config_round_trip "abc123" w (config_path_of w) eq_refl)
    as [_ [_ Hload]].
  exact (Hload eq_refl).
Defined.

Lemma from_json_file_keys_witness :
  (exists msg,
      from_json_file (config_path_of (home_world []))
                     (home_with_config stale_config_text [])
      = (Raise (TypeError msg), home_with_config stale_config_text []))
  /\ from_json_file (config_path_of (home_world []))
                    (home_with_config "{}" [])
     = (Return Config_default, home_with_config "{}" []).
Proof.
  split.
  - refine (proj1 (from_json_file_keys
                     (home_with_config stale_config_text [])
                     (config_path_of (home_world [])) stale_config_text
                     [(Json.ustr_of "access_token",
                       Json.PStr (Json.ustr_of "abc123"))]
                     eq_refl _) _).
    + vm_compute. reflexivity.
    + exists (Json.ustr_of "access_token"),
             (Json.PStr (Json.ustr_of "abc123")).
      split; [left; reflexivity | vm_compute; discriminate].
  - refine (proj2 (from_json_file_keys (home_with_config "{}" [])
                     (config_path_of (home_world [])) "{}" []
                     eq_refl _) _).
    + vm_compute. reflexivity.
    + intros k v [].
Defined.

(** A configuration file that holds [{}] is read as the default
    configuration: the missing key is not rejected. *)
Lemma missing_token_key_accepted :
  let w := home_with_config "{}" [] in
  fs_file w (config_path_of w) = Content "{}"
  /\ Json.loads "{}" = Json.Loaded (Json.PDict [])
  /\ Json.dict_get token_key [] = None
  /\ from_json_file (config_path_of w) w = (Return Config_default, w)
  /\ load_config w = (Return Config_default, w).
Proof. repeat split. Qed.

Lemma no_images_exits_witness :
  main (upload_args "empty" None) (home_world [])
  = (Exit 1, emit (Line no_images_message) (home_world [])).
Proof.
  destruct (no_images_exits (upload_args "empty" None) (home_world [])
              "empty" ["empty/a.txt"] eq_refl eq_refl eq_refl eq_refl eq_refl)
    as [_ [_ H]].
  exact (H Config_default (home_world []) eq_refl).
Defined.

Lemma not_a_directory_exits_witness :
  main (upload_args "notes.txt" None) (home_world ["y"])
  = (Exit 1, emit (Line no_directory_message) (home_world ["y"])).
Proof.
  destruct (not_a_directory_exits (upload_args "notes.txt" None)
              (home_world ["y"]) "notes.txt" eq_refl eq_refl eq_refl)
    as [_ [_ H]].
  exact (H Config_default (home_world ["y"]) eq_refl).
Defined.

Lemma token_stored_before_directory_check_witness :
  let run := main (upload_args "notes.txt" (Some "secret")) (home_world []) in
  fst run = Exit 1
  /\ fs_file (snd run) (config_path_of (home_world [])) = token_file "secret".
Proof.
  destruct (token_stored_before_directory_check
              (upload_args "notes.txt" (Some "secret")) (home_world [])
              "secret" "notes.txt" Config_default
              eq_refl eq_refl ltac:(discriminate) eq_refl eq_refl eq_refl
              eq_refl)
    as [Hrun [Hfile _]].
  split; [now rewrite Hrun | exact Hfile].
Defined.

(** With [--access-token] and a [dir_path] that is not a directory the
    run ends with status 1 and the configuration file is as it was:
    when the stored configuration is not JSON, since [load_config] exits
    first, and when the token given is empty, since it is not stored. *)
Lemma token_not_always_stored :
  let malformed := home_with_config "not json" [] in
  let run1 := main (upload_args "notes.txt" (Some "secret")) malformed in
  let run2 := main (upload_args "notes.txt" (Some "")) (home_world []) in
  (fs_is_dir malformed "notes.txt" = false
   /\ fst run1 = Exit 1
   /\ fs_file (snd run1) (config_path_of malformed) = Content "not json"
   /\ token_file "secret" <> Content "not json")
  /\ (fst run2 = Exit 1
      /\ fs_file (snd run2) (config_path_of (home_world [])) = Absent).
Proof.
  repeat split. vm_compute. discriminate.
Qed.

(** The scenario of the specification, from the command line to the
    album: discovery gives [a.png], [b.jpg], [c2.gif], [c10.gif]; these
    are uploaded in that order, and the album is created from the four
    identifiers in the same order, hidden. *)
Example main_end_to_end :
  let run := main (upload_args "album" None) album_world in
  let token := Json.PStr [] in
  fst run = Return tt
  /\ net_log (snd run)
     = [(ImageUpload token "/home/u/album/a.png" "a" "a", ApiOk "id0");
        (ImageUpload token "/home/u/album/b.jpg" "b" "b", ApiOk "id1");
        (ImageUpload token "/home/u/album/c2.gif" "c2" "c2", ApiOk "id2");
        (ImageUpload token "/home/u/album/c10.gif" "c10" "c10", ApiOk "id3");
        (AlbumCreate token ["id0"; "id1"; "id2"; "id3"] (Some "Chapter 1")
                     "" "hidden", ApiOk "id4")]
  /\ last (stdout (snd run)) (Line "")
     = Line "Access the album here: https://imgur.com/a/id4".
Proof. vm_compute. repeat split. Qed.

(* ================================================================= *)
(** * Further properties of the code *)

(** ** Worlds that differ in few places *)

Lemma terminal_only_refl (w : World) : terminal_only w w.
Proof. repeat split. Qed.

Lemma terminal_only_trans (w1 w2 w3 : World) :
  terminal_only w1 w2 -> terminal_only w2 w3 -> terminal_only w1 w3.
Proof.
  unfold terminal_only. intros H1 H2.
  decompose [and] H1. decompose [and] H2. repeat split; congruence.
Qed.

Lemma terminal_only_emit (w : World) (o : output) :
  terminal_only w (emit o w).
Proof. repeat split. Qed.

Lemma terminal_only_set_stdin (w : World) (lines : list string) :
  terminal_only w (set_stdin lines w).
Proof. repeat split. Qed.

Lemma emit_all_spec (os : list output) :
  forall w,
    terminal_only w (emit_all os w)
    /\ stdin (emit_all os w) = stdin w
    /\ stdout (emit_all os w) = (stdout w ++ os)%list.
Proof.
  induction os as [| o os IH]; intro w; cbn [emit_all].
  - split; [apply terminal_only_refl |]. split; [reflexivity |].
    now rewrite app_nil_r.
  - destruct (IH (emit o w)) as [Ht [Hi Ho]].
    split; [exact (terminal_only_trans _ _ _ (terminal_only_emit w o) Ht) |].
    split; [exact Hi |]. rewrite Ho. cbn. now rewrite <- app_assoc.
Qed.

(** ** More about the confirmation gate *)

Lemma says_yes_test (line : string) :
  Text.startswith (Text.strip (Text.lower line)) "y" = true <-> says_yes line.
Proof. exact (answer_letter "y" line (or_introl eq_refl)). Qed.

Lemma says_no_test (line : string) :
  Text.startswith (Text.strip (Text.lower line)) "n" = true <-> says_no line.
Proof. exact (answer_letter "n" line (or_intror (or_introl eq_refl))). Qed.

Lemma yes_is_not_no (line : string) : says_yes line -> ~ says_no line.
Proof.
  intros Hy Hn. apply says_yes_test in Hy. apply says_no_test in Hn.
  apply startswith_letter in Hy as [r1 E1].
  apply startswith_letter in Hn as [r2 E2].
  rewrite E1 in E2. discriminate E2.
Qed.

Lemma accepted_step (prompt : string) (default : option bool) (w : World)
      (line : string) (rest : list string) (answer : bool) :
  stdin w = line :: rest ->
  accepted default line answer ->
  get_confirmation prompt default w
  = (Return answer,
     emit (Prompt (confirmation_prompt prompt default)) (set_stdin rest w)).
Proof.
  intros Hin Hacc. rewrite (get_confirmation_step _ _ _ _ _ Hin). cbv zeta.
  destruct Hacc as [[Hy ->] | [[Hn ->] | [-> ->]]].
  - apply says_yes_test in Hy. now rewrite Hy.
  - destruct (Text.startswith _ "y") eqn:Ey.
    + apply says_yes_test in Ey. now elim (yes_is_not_no _ Ey).
    + apply says_no_test in Hn. now rewrite Hn.
  - reflexivity.
Qed.

Lemma rejected_step (prompt : string) (default : option bool) (w : World)
      (line : string) (rest : list string) :
  stdin w = line :: rest ->
  rejected default line ->
  get_confirmation prompt default w
  = get_confirmation prompt default
      (emit (Line invalid_notice)
         (emit (Prompt (confirmation_prompt prompt default))
               (set_stdin rest w))).
Proof.
  intros Hin [Hy [Hn He]]. rewrite (get_confirmation_step _ _ _ _ _ Hin).
  cbv zeta.
  destruct (Text.startswith _ "y") eqn:Ey;
    [apply says_yes_test in Ey; contradiction |].
  destruct (Text.startswith _ "n") eqn:En;
    [apply says_no_test in En; contradiction |].
  destruct He as [Hne | ->].
  - destruct (String.eqb_spec line ""); [contradiction | reflexivity].
  - now rewrite andb_false_r.
Qed.

Lemma gate_end_of_input (prompt : string) (default : option bool) (w : World) :
  stdin w = [] ->
  get_confirmation prompt default w
  = (Raise EOFError, emit (Prompt (confirmation_prompt prompt default)) w).
Proof.
  intro Hin. unfold get_confirmation. rewrite Hin. cbn [List.length].
  now rewrite get_confirmation_loop_step, Hin.
Qed.

Lemma gate_first_answer (prompt : string)
      (default : option bool) (line : string) (rest : list string)
      (answer : bool) (passed : list string) :
  forall w,
    stdin w = (passed ++ line :: rest)%list ->
    Forall (rejected default) passed ->
    accepted default line answer ->
    exists w',
      get_confirmation prompt default w = (Return answer, w')
      /\ stdin w' = rest
      /\ stdout w'
         = (stdout w
              ++ reprompts (confirmation_prompt prompt default)
                           (List.length passed)
              ++ [Prompt (confirmation_prompt prompt default)])%list
      /\ terminal_only w w'.
Proof.
  induction passed as [| bad passed IH]; intros w Hin Hrej Hacc.
  - eexists. split; [exact (accepted_step _ _ _ _ _ _ Hin Hacc) |].
    repeat split.
  - inversion Hrej as [| ? ? Hbad Hrest]; subst.
    rewrite (rejected_step prompt default w bad (passed ++ line :: rest)
                           Hin Hbad).
    destruct (IH (emit (Line invalid_notice)
                    (emit (Prompt (confirmation_prompt prompt default))
                          (set_stdin (passed ++ line :: rest) w)))
                 eq_refl Hrest Hacc) as [w' [Hrun [Hi [Ho Ht]]]].
    exists w'. split; [exact Hrun |]. split; [exact Hi |]. split.
    + rewrite Ho. cbn. now rewrite <- !app_assoc.
    + destruct Ht as [? [? [? [? [? [? [? [? ?]]]]]]]]. repeat split; assumption.
Qed.

(** X1.  The gate passes over every line that is no answer, showing the
    prompt and the notice for each, and returns what the first answer
    says; the lines behind that answer are left unread. *)
Theorem get_confirmation_first_answer (prompt : string)
        (default : option bool) (line : string) (rest : list string)
        (answer : bool) (passed : list string) :
  forall w,
    stdin w = (passed ++ line :: rest)%list ->
    Forall (rejected default) passed ->
    accepted default line answer ->
    exists w',
      get_confirmation prompt default w = (Return answer, w')
      /\ stdin w' = rest
      /\ stdout w'
         = (stdout w
              ++ reprompts (confirmation_prompt prompt default)
                           (List.length passed)
              ++ [Prompt (confirmation_prompt prompt default)])%list
      /\ terminal_only w w'.
Proof. exact (gate_first_answer prompt default line rest answer passed). Qed.

(** X2.  When no line of the input is an answer, the gate reads all of
    it, asks once more and ends with [EOFError]. *)
Theorem get_confirmation_runs_dry (prompt : string) (default : option bool)
        (lines : list string) :
  forall w,
    stdin w = lines ->
    Forall (rejected default) lines ->
    exists w',
      get_confirmation prompt default w = (Raise EOFError, w')
      /\ stdin w' = []
      /\ stdout w'
         = (stdout w
              ++ reprompts (confirmation_prompt prompt default)
                           (List.length lines)
              ++ [Prompt (confirmation_prompt prompt default)])%list
      /\ terminal_only w w'.
Proof.
  induction lines as [| bad lines IH]; intros w Hin Hrej.
  - eexists. split; [exact (gate_end_of_input _ _ _ Hin) |].
    repeat split. exact Hin.
  - inversion Hrej as [| ? ? Hbad Hrest]; subst.
    rewrite (rejected_step prompt default w bad lines Hin Hbad).
    destruct (IH (emit (Line invalid_notice)
                    (emit (Prompt (confirmation_prompt prompt default))
                          (set_stdin lines w)))
                 eq_refl Hrest) as [w' [Hrun [Hi [Ho Ht]]]].
    exists w'. split; [exact Hrun |]. split; [exact Hi |]. split.
    + rewrite Ho. cbn. now rewrite <- !app_assoc.
    + destruct Ht as [? [? [? [? [? [? [? [? ?]]]]]]]]. repeat split; assumption.
Qed.

Lemma lstrip_all_space (s : string) :
  Text.all_space s = true -> Text.lstrip s = "".
Proof.
  induction s as [| c s IH]; simpl; [reflexivity |].
  intro H. apply andb_true_iff in H as [Hc Hs]. now rewrite Hc, IH.
Qed.

(** X3.  A line of white space only is never an answer: the test for the
    default compares the line as typed with the empty string, so a blank
    line that is not empty is answered with the notice, also when a
    default is set. *)
Theorem blank_line_is_no_answer (prompt : string) (default : option bool)
        (w : World) (line : string) (rest : list string) :
  stdin w = line :: rest ->
  Text.all_space line = true ->
  line <> "" ->
  rejected default line
  /\ get_confirmation prompt default w
     = get_confirmation prompt default
         (emit (Line invalid_notice)
            (emit (Prompt (confirmation_prompt prompt default))
                  (set_stdin rest w))).
Proof.
  intros Hin Hsp Hne.
  assert (Hstrip : Text.strip (Text.lower line) = "").
  { unfold Text.strip.
    now rewrite lstrip_all_space by (now rewrite all_space_lower). }
  assert (Hrej : rejected default line).
  { repeat split.
    - intro H. apply says_yes_test in H. rewrite Hstrip in H. discriminate H.
    - intro H. apply says_no_test in H. rewrite Hstrip in H. discriminate H.
    - now left. }
  split; [exact Hrej | exact (rejected_step _ _ _ _ _ Hin Hrej)].
Qed.

(** ** More about the upload *)

Lemma emit_all_app (a b : list output) (w : World) :
  emit_all (a ++ b) w = emit_all b (emit_all a w).
Proof. revert w. induction a as [| o a IH]; intro w; cbn; auto. Qed.

Lemma print_names_eq (paths : list Path) :
  forall w,
    print_names paths w
    = (Return tt, emit_all (map (fun path => Line (name path)) paths) w).
Proof.
  induction paths as [| p paths IH]; intro w; [reflexivity |].
  cbn [print_names map emit_all]. unfold bind, print. apply IH.
Qed.

Lemma imgur_upload_eq (paths : list Path) (config : Config)
      (album : option string) (public0 : bool) (w : World) :
  imgur_upload paths config album public0 w
  = match upload_images (imgur_access_token config) paths [] w with
    | (Return ids, w1) =>
        let c := album_call config ids album public0 in
        match imgur w1 (net_log w1) c with
        | ApiOk id =>
            (Return tt, emit_all (album_report id) (log_call c (ApiOk id) w1))
        | ApiRaise e => (Raise e, log_call c (ApiRaise e) w1)
        end
    | (Exit code, w1) => (Exit code, w1)
    | (Raise e, w1) => (Raise e, w1)
    end.
Proof.
  unfold imgur_upload, bind at 1.
  destruct (upload_images _ paths [] w) as [[ids | code | e] w1];
    try reflexivity.
  cbv zeta. unfold bind at 1, imgur_call, album_call, privacy_of.
  now destruct (imgur w1 (net_log w1) _).
Qed.

(** What the upload loop leaves behind: the requests it made, one for
    every regular file up to the first failure. *)
Lemma upload_images_run (paths : list Path) (token : Json.pyval) :
  forall (ids : list string) (w : World),
    let files := filter (fs_is_file w) paths in
    (exists new_ids,
        List.length new_ids = List.length files
        /\ upload_images token paths ids w
           = (Return (ids ++ new_ids)%list,
              set_net_log
                (net_log w ++ combine (map (upload_call token w) files)
                                      (map ApiOk new_ids)) w))
    \/ (exists e done,
           List.length done < List.length files
           /\ upload_images token paths ids w
              = (Raise e,
                 set_net_log
                   (net_log w ++ combine (map (upload_call token w) files)
                                         (map ApiOk done ++ [ApiRaise e])) w)).
Proof.
  induction paths as [| p paths IH]; intros ids w; cbn zeta.
  - left. exists []. split; [reflexivity |]. cbn.
    rewrite !app_nil_r. now destruct w.
  - rewrite upload_images_cons. cbn [filter].
    destruct (fs_is_file w p) eqn:Hp; [| exact (IH ids w)].
    set (c := upload_call token w p).
    destruct (imgur w (net_log w) c) as [id | e].
    + destruct (IH (ids ++ [id])%list (log_call c (ApiOk id) w))
        as [[new_ids [Hlen Hrun]] | [e [done [Hlen Hrun]]]].
      * left. exists (id :: new_ids). split; [cbn in *; now rewrite Hlen |].
        rewrite Hrun, <- app_assoc. cbn. unfold set_net_log, upload_call. cbn.
        now rewrite <- app_assoc.
      * right. exists e, (id :: done). split; [cbn in *; lia |].
        rewrite Hrun. cbn. unfold set_net_log, upload_call. cbn.
        now rewrite <- app_assoc.
    + right. exists e, []. split; [cbn; lia |].
      cbn [map app combine]. now rewrite combine_nil.
Qed.

(** The whole run of [imgur_upload]: the uploads, then the album and the
    report, or the exception of the first request that failed. *)
Lemma imgur_upload_run (paths : list Path) (config : Config)
      (album : option string) (public0 : bool) (w : World) :
  let token := imgur_access_token config in
  let files := filter (fs_is_file w) paths in
  let run := imgur_upload paths config album public0 w in
  (exists ids,
      List.length ids = List.length files
      /\ let log := (net_log w ++ combine (map (upload_call token w) files)
                                          (map ApiOk ids))%list in
         let c := album_call config ids album public0 in
         match imgur w log c with
         | ApiOk id =>
             run = (Return tt,
                    emit_all (album_report id)
                             (set_net_log (log ++ [(c, ApiOk id)]) w))
         | ApiRaise e =>
             run = (Raise e, set_net_log (log ++ [(c, ApiRaise e)]) w)
         end)
  \/ (exists e done,
         List.length done < List.length files
         /\ run = (Raise e,
                   set_net_log
                     (net_log w ++ combine (map (upload_call token w) files)
                                           (map ApiOk done ++ [ApiRaise e]))
                     w)).
Proof.
  intros token files run. unfold run. rewrite imgur_upload_eq. fold token.
  destruct (upload_images_run paths token [] w)
    as [[ids [Hlen Hrun]] | [e [done [Hlen Hrun]]]]; rewrite Hrun.
  - left. exists ids. split; [exact Hlen |]. cbn [app]. cbv zeta.
    cbn [imgur net_log set_net_log].
    now destruct (imgur w _ (album_call config ids album public0)).
  - right. exists e, done. split; [exact Hlen | reflexivity].
Qed.


Lemma upload_images_no_files (token : Json.pyval) (paths : list Path) :
  forall (ids : list string) (w : World),
    (forall p, In p paths -> fs_is_file w p = false) ->
    upload_images token paths ids w = (Return ids, w).
Proof.
  induction paths as [| p paths IH]; intros ids w Hall; [reflexivity |].
  rewrite upload_images_cons, (Hall p (or_introl eq_refl)).
  apply IH. intros q Hq. apply Hall. now right.
Qed.

(** X5.  When none of the paths is a regular file, [imgur_upload] still
    creates an album: its only request is the album creation, with no
    identifiers. *)
Theorem imgur_upload_without_files (paths : list Path) (config : Config)
        (album : option string) (public0 : bool) (w : World) :
  (forall p, In p paths -> fs_is_file w p = false) ->
  let c := album_call config [] album public0 in
  net_log (snd (imgur_upload paths config album public0 w))
  = (net_log w ++ [(c, imgur w (net_log w) c)])%list.
Proof.
  intros Hall c. rewrite imgur_upload_eq.
  rewrite (upload_images_no_files _ paths [] w Hall). cbv zeta. fold c.
  destruct (imgur w (net_log w) c) as [id | e]; [| reflexivity].
  cbn [snd].
  destruct (emit_all_spec (album_report id) (log_call c (ApiOk id) w))
    as [Ht _].
  destruct Ht as [_ [_ [_ [_ [_ [_ [_ [_ Hn]]]]]]]]. exact Hn.
Qed.

Lemma imgur_upload_keeps_files (paths : list Path) (config : Config)
      (album : option string) (public0 : bool) (w : World) :
  fs_file (snd (imgur_upload paths config album public0 w)) = fs_file w.
Proof.
  destruct (imgur_upload_run paths config album public0 w)
    as [[ids [_ Hrun]] | [e [done [_ Hrun]]]].
  - cbv zeta in Hrun.
    destruct (imgur w _ (album_call config ids album public0)) as [id | e];
      rewrite Hrun; cbn [snd]; [| reflexivity].
    match goal with
    | |- fs_file (emit_all ?os ?w0) = _ =>
        destruct (emit_all_spec os w0) as [[_ [Hf _]] _]
    end.
    exact Hf.
  - now rewrite Hrun.
Qed.

(** ** More about the run of [main] *)

(** What the gate can do: it changes the terminal only, it never exits,
    and it says yes only to a line that says yes or, on the empty line,
    by a default that does. *)
Lemma gate_outcome (prompt : string) (default : option bool)
      (lines : list string) :
  forall w,
    stdin w = lines ->
    let run := get_confirmation prompt default w in
    terminal_only w (snd run)
    /\ (forall code, fst run <> Exit code)
    /\ (fst run = Return true ->
        default = Some true \/ exists line, In line lines /\ says_yes line).
Proof.
  induction lines as [| line rest IH]; intros w Hin; cbv zeta.
  - rewrite (gate_end_of_input _ _ _ Hin). cbn [fst snd].
    split; [apply terminal_only_emit |]. split; discriminate.
  - rewrite (get_confirmation_step _ _ _ _ _ Hin). cbv zeta.
    set (asked := emit (Prompt (confirmation_prompt prompt default))
                       (set_stdin rest w)).
    assert (Hasked : terminal_only w asked) by (repeat split).
    destruct (Text.startswith _ "y") eqn:Ey.
    { cbn [fst snd]. split; [exact Hasked |]. split; [discriminate |].
      intros _. right. exists line. split; [now left |].
      now apply says_yes_test. }
    destruct (Text.startswith _ "n") eqn:En.
    { cbn [fst snd]. split; [exact Hasked |]. split; discriminate. }
    destruct (String.eqb line "" && _)%bool eqn:Ee.
    { cbn [fst snd]. split; [exact Hasked |]. split; [discriminate |].
      destruct default as [[] |]; try discriminate; auto. }
    destruct (IH (emit (Line invalid_notice) asked) eq_refl)
      as [Ht [Hx Hy]].
    split; [| split].
    + apply (terminal_only_trans _ asked); [exact Hasked |].
      apply (terminal_only_trans _ (emit (Line invalid_notice) asked));
        [apply terminal_only_emit | exact Ht].
    + exact Hx.
    + intro H. destruct (Hy H) as [Hd | [l [Hl Hs]]]; [now left |].
      right. exists l. split; [now right | exact Hs].
Qed.

Lemma images_sorted_nonempty (entries : list Path) :
  filter is_image_path entries <> [] ->
  filter is_image_path (Natsort.natsorted entries) <> [].
Proof.
  intros Hne Hnil. apply Hne. apply Permutation_nil. rewrite <- Hnil.
  apply filter_perm, natsorted_perm.
Qed.

Lemma emit_all_announcement (paths : list Path) (w : World) :
  emit_all (announcement paths) w
  = emit (Line (String "010" ("Found " ++ Text.decimal (List.length paths)
                                ++ " test_images.")))
         (emit_all (map (fun path => Line (name path)) paths)
            (emit (Line "The following test_images will be uploaded in order:")
                  w)).
Proof.
  unfold announcement. cbn [emit_all]. now rewrite emit_all_app.
Qed.

(** [proceed] in a directory with images: the announcement, the gate,
    and then the upload or the end of the run. *)
Lemma proceed_gate (args : Args) (config : Config) (w : World) (p : string)
      (entries : list Path) :
  dir_path args = Some p ->
  fs_is_dir w p = true ->
  fs_iterdir w p = Entries entries ->
  filter is_image_path entries <> [] ->
  proceed args config w
  = let paths := filter is_image_path (Natsort.natsorted entries) in
    match get_confirmation "Do you want to continue?" (Some false)
                           (emit_all (announcement paths) w) with
    | (Return confirmed, w2) =>
        if negb confirmed then (Exit 0, emit (Line "Aborting.") w2)
        else imgur_upload paths config (album_name args) (public args) w2
    | (Exit code, w2) => (Exit code, w2)
    | (Raise e, w2) => (Raise e, w2)
    end.
Proof.
  intros Hp Hd Hls Hne. apply images_sorted_nonempty in Hne.
  unfold proceed, bind at 1, Path_new. rewrite Hp. cbn [ret].
  unfold bind at 1, is_dir. rewrite Hd. cbn [negb].
  unfold bind at 1. rewrite (get_image_paths_eq w p entries Hls). cbv zeta.
  destruct (filter is_image_path (Natsort.natsorted entries))
    as [| x paths] eqn:E; [congruence |].
  unfold bind at 1, print at 1. unfold bind at 1.
  rewrite print_names_eq. unfold bind at 1, print at 1.
  rewrite emit_all_announcement. unfold bind at 1.
  destruct (get_confirmation _ _ _) as [[[] | code | e] w2]; reflexivity.
Qed.

(** [proceed] elsewhere: the run ends at once, with exit code 1 or an
    exception, and at most a printed line. *)
Lemma proceed_early (args : Args) (config : Config) (w : World) :
  (exists p entries,
      dir_path args = Some p /\ fs_is_dir w p = true
      /\ fs_iterdir w p = Entries entries
      /\ filter is_image_path entries <> [])
  \/ (exists o w',
         proceed args config w = (o, w')
         /\ exit_status o = 1%Z
         /\ terminal_only w w' /\ stdin w' = stdin w).
Proof.
  destruct (dir_path args) as [p |] eqn:Hp.
  - destruct (fs_is_dir w p) eqn:Hd.
    + destruct (fs_iterdir w p) as [entries | msg] eqn:Hls.
      * destruct (filter is_image_path entries) as [| x l] eqn:Hf.
        -- right. do 2 eexists.
           split; [exact (proceed_no_images args config w p entries
                            Hp Hd Hls Hf) |].
           repeat split.
        -- left. exists p, entries. repeat split; try assumption.
           rewrite Hf. discriminate.
      * right. do 2 eexists. split.
        -- unfold proceed, bind at 1, Path_new. rewrite Hp. cbn [ret].
           unfold bind at 1, is_dir. rewrite Hd. cbn [negb].
           unfold bind at 1, get_image_paths, bind, iterdir. rewrite Hls.
           reflexivity.
        -- repeat split.
    + right. do 2 eexists.
      split; [exact (proceed_no_directory args config w p Hp Hd) |].
      repeat split.
  - right. do 2 eexists. split.
    + unfold proceed, bind at 1, Path_new. rewrite Hp. reflexivity.
    + repeat split.
Qed.

Lemma configure_frame (args : Args) (w : World) :
  let w1 := snd (configure args w) in
  fs_is_file w1 = fs_is_file w
  /\ fs_absolute w1 = fs_absolute w
  /\ imgur w1 = imgur w
  /\ xdg_config_home w1 = xdg_config_home w
  /\ forall path,
      path <> config_path_of w
      \/ access_token args = None \/ access_token args = Some "" ->
      fs_file w1 path = fs_file w path.
Proof.
  cbv zeta. rewrite configure_eq.
  destruct (load_config_outcomes w) as [[c ->] | [[a [b ->]] | [e ->]]];
    try (repeat split; reflexivity).
  destruct (access_token args) as [token |] eqn:Ht;
    [| repeat split; reflexivity].
  destruct (String.eqb_spec token "") as [-> | Hne]; cbn [negb];
    [repeat split; reflexivity |].
  destruct (fs_write_error w (config_path_of w));
    [repeat split; reflexivity |].
  cbn [snd]. repeat split. intros path [Hp | [Hn | He]].
  - cbn. destruct (String.eqb_spec path (config_path_of w));
      [contradiction | reflexivity].
  - discriminate Hn.
  - injection He as ->. contradiction.
Qed.

Lemma proceed_keeps_files (args : Args) (config : Config) (w : World) :
  fs_file (snd (proceed args config w)) = fs_file w.
Proof.
  destruct (proceed_early args config w)
    as [[p [entries [Hp [Hd [Hls Hne]]]]] | [o [w' [Hrun [_ [Ht _]]]]]].
  - rewrite (proceed_gate args config w p entries Hp Hd Hls Hne). cbv zeta.
    set (paths := filter is_image_path (Natsort.natsorted entries)).
    destruct (emit_all_spec (announcement paths) w) as [Ha _].
    destruct (gate_outcome "Do you want to continue?" (Some false) _
                (emit_all (announcement paths) w) eq_refl) as [Hg _].
    pose proof (terminal_only_trans _ _ _ Ha Hg) as Ht.
    destruct Ht as [_ [Hf _]].
    destruct (get_confirmation _ _ _) as [[[] | code | e] w2];
      cbn [fst snd negb] in *; try exact Hf.
    now rewrite imgur_upload_keeps_files.
  - rewrite Hrun. exact (proj1 (proj2 Ht)).
Qed.

(** X6.  No request without a yes: when no line of the input starts,
    behind white space, with [y] or [Y], [main] sends nothing to Imgur,
    whatever the arguments, the files and the service. *)
Theorem no_request_without_yes (args : Args) (w : World) :
  (forall line, In line (stdin w) -> ~ says_yes line) ->
  net_log (snd (main args w)) = net_log w.
Proof.
  intro Hno. destruct (show_config_path args) eqn:Hshow.
  { unfold main. now rewrite Hshow. }
  rewrite (main_halves args w Hshow). unfold bind.
  destruct (configure_quiet args w) as [o [w1 [Heq [Hq _]]]].
  rewrite Heq. destruct Hq as [Hn [Hi _]].
  destruct o as [config | code | e]; try exact Hn.
  destruct (proceed_early args config w1)
    as [[p [entries [Hp [Hd [Hls Hne]]]]] | [o [w' [Hrun [_ [Ht _]]]]]].
  - rewrite (proceed_gate args config w1 p entries Hp Hd Hls Hne). cbv zeta.
    set (paths := filter is_image_path (Natsort.natsorted entries)).
    destruct (emit_all_spec (announcement paths) w1) as [Ha [Hai _]].
    destruct (gate_outcome "Do you want to continue?" (Some false) _
                (emit_all (announcement paths) w1) eq_refl)
      as [Hg [_ Hyes]].
    pose proof (terminal_only_trans _ _ _ Ha Hg) as Ht.
    destruct Ht as [_ [_ [_ [_ [_ [_ [_ [_ Hlog]]]]]]]].
    destruct (get_confirmation _ _ _) as [[[] | code | e] w2];
      cbn [fst snd negb] in *;
      try (cbn [net_log emit]; rewrite Hlog; exact Hn).
    destruct (Hyes eq_refl) as [Hd' | [line [Hin Hy]]]; [discriminate |].
    rewrite Hai, Hi in Hin. now elim (Hno line Hin).
  - rewrite Hrun. cbn [snd].
    destruct Ht as [_ [_ [_ [_ [_ [_ [_ [_ Hlog]]]]]]]]. now rewrite Hlog.
Qed.

(** X7.  [main] writes no file but the configuration file, and that one
    only for a non-empty [--access-token]. *)
Theorem main_writes_config_only (args : Args) (w : World) (path : Path) :
  path <> config_path_of w
  \/ access_token args = None \/ access_token args = Some "" ->
  fs_file (snd (main args w)) path = fs_file w path.
Proof.
  intro Hcond. destruct (show_config_path args) eqn:Hshow.
  { unfold main. now rewrite Hshow. }
  rewrite (main_halves args w Hshow). unfold bind.
  destruct (configure_frame args w) as [_ [_ [_ [_ Hfile]]]].
  specialize (Hfile path Hcond).
  destruct (configure_quiet args w) as [o [w1 [Heq _]]].
  rewrite Heq in *. cbn [snd] in Hfile.
  destruct o as [config | code | e]; try exact Hfile.
  now rewrite proceed_keeps_files.
Qed.

(** X8.  Without a [dir_path] (the command alone) the run does not end
    in a usage message: once the configuration phase has passed,
    [Path(None)] raises a [TypeError] that nothing catches.  The exit
    status is 1 and the run is quiet. *)
Theorem missing_dir_path_raises (args : Args) (w : World) :
  show_config_path args = false ->
  dir_path args = None ->
  let run := main args w in
  exit_status (fst run) = 1%Z
  /\ quiet w (snd run)
  /\ (forall config w1,
         configure args w = (Return config, w1) ->
         exists msg, run = (Raise (TypeError msg), w1)).
Proof.
  intros Hshow Hp run. unfold run. rewrite (main_halves args w Hshow).
  unfold bind.
  destruct (configure_quiet args w) as [o [w1 [Heq [Hq [_ [_ Ho]]]]]].
  rewrite Heq.
  assert (Hrun : forall config,
             proceed args config w1
             = (Raise (TypeError
                  "expected str, bytes or os.PathLike object, not NoneType"),
                w1)).
  { intro config. unfold proceed, bind at 1, Path_new. now rewrite Hp. }
  destruct o as [config | code | e].
  - rewrite Hrun. split; [reflexivity |]. split; [exact Hq |].
    intros config' w1' H. injection H as _ <-. eexists. reflexivity.
  - subst code. split; [reflexivity |]. split; [exact Hq |].
    intros config' w1' H. discriminate H.
  - split; [reflexivity |]. split; [exact Hq |].
    intros config' w1' H. discriminate H.
Qed.

(** ** The run of [main] up to and behind the gate *)


(** The three ways [imgur_upload] can end, with the requests, the
    terminal and the result of each. *)
Lemma imgur_upload_log (paths : list Path) (config : Config)
      (album : option string) (public0 : bool) (w : World) :
  let token := imgur_access_token config in
  let files := filter (fs_is_file w) paths in
  let uploads := map (upload_call token w) files in
  let run := imgur_upload paths config album public0 w in
  stdin (snd run) = stdin w
  /\ ((exists ids album_id,
          List.length ids = List.length files
          /\ fst run = Return tt
          /\ net_log (snd run)
             = (net_log w ++ combine uploads (map ApiOk ids)
                  ++ [(album_call config ids album public0,
                       ApiOk album_id)])%list
          /\ stdout (snd run) = (stdout w ++ album_report album_id)%list)
      \/ (exists ids e,
             List.length ids = List.length files
             /\ fst run = Raise e
             /\ net_log (snd run)
                = (net_log w ++ combine uploads (map ApiOk ids)
                     ++ [(album_call config ids album public0,
                          ApiRaise e)])%list
             /\ stdout (snd run) = stdout w)
      \/ (exists done e,
             List.length done < List.length files
             /\ fst run = Raise e
             /\ net_log (snd run)
                = (net_log w
                     ++ combine uploads (map ApiOk done ++ [ApiRaise e]))%list
             /\ stdout (snd run) = stdout w)).
Proof.
  intros token files uploads run.
  destruct (imgur_upload_run paths config album public0 w)
    as [[ids [Hlen Hrun]] | [e [done [Hlen Hrun]]]];
    fold token files run in Hrun, Hlen; fold uploads in Hrun.
  - cbv zeta in Hrun.
    destruct (imgur w _ (album_call config ids album public0)) as [id | e];
      rewrite Hrun; cbn [fst snd].
    + match goal with
      | |- context [emit_all ?os ?w0] =>
          destruct (emit_all_spec os w0) as [[_ [_ [_ [_ [_ [_ [_ [_ Hn]]]]]]]]
                                               [Hi Ho]]
      end.
      split; [exact Hi |]. left. exists ids, id.
      split; [exact Hlen |]. split; [reflexivity |].
      split; [rewrite Hn; cbn; now rewrite <- app_assoc | exact Ho].
    + split; [reflexivity |]. right. left. exists ids, e.
      split; [exact Hlen |]. split; [reflexivity |].
      split; [cbn; now rewrite <- app_assoc | reflexivity].
  - rewrite Hrun; cbn [fst snd]. split; [reflexivity |]. right. right.
    exists done, e. repeat split. exact Hlen.
Qed.





(** X11.  A run ends with exit status 0 in two ways only: the gate was
    not answered with yes and nothing was sent, or the album was created
    and its identifier printed. *)
Theorem success_means_album_or_abort (args : Args) (w : World) :
  show_config_path args = false ->
  let run := main args w in
  exit_status (fst run) = 0%Z ->
  (fst run = Exit 0 /\ net_log (snd run) = net_log w)
  \/ (fst run = Return tt
      /\ exists log token ids album_id out,
          net_log (snd run)
          = (log ++ [(AlbumCreate token ids (album_name args) ""
                                  (privacy_of (public args)),
                      ApiOk album_id)])%list
          /\ stdout (snd run) = (out ++ album_report album_id)%list).
Proof.
  intros Hshow run. unfold run.
  rewrite (main_halves args w Hshow). unfold bind.
  destruct (configure_quiet args w) as [o [w1 [Heq [[Hn _] [_ [_ Ho]]]]]].
  rewrite Heq.
  destruct o as [config | code | e];
    [| subst code; discriminate | discriminate].
  destruct (proceed_early args config w1)
    as [[p [entries [Hp [Hd [Hls Hne]]]]] | [o [w' [Hrun [Hst _]]]]];
    [| rewrite Hrun; cbn [fst]; rewrite Hst; discriminate].
  rewrite (proceed_gate args config w1 p entries Hp Hd Hls Hne). cbv zeta.
  set (paths := filter is_image_path (Natsort.natsorted entries)).
  destruct (emit_all_spec (announcement paths) w1) as [Ha _].
  destruct (gate_outcome "Do you want to continue?" (Some false) _
              (emit_all (announcement paths) w1) eq_refl) as [Hg _].
  pose proof (terminal_only_trans _ _ _ Ha Hg) as Ht.
  destruct Ht as [_ [_ [_ [_ [_ [_ [_ [_ Hlog]]]]]]]].
  destruct (get_confirmation _ _ _) as [[[] | code | e] w2];
    cbn [fst snd negb] in *.
  - intro Hz. right.
    destruct (imgur_upload_log paths config (album_name args) (public args)
                               w2)
      as [_ [[ids [id [_ [Hres [Hnet Hout]]]]]
             | [[ids [e [_ [Hres _]]]] | [done [e [_ [Hres _]]]]]]];
      cbv zeta in *;
      try (rewrite Hres in Hz; discriminate Hz).
    split; [exact Hres |].
    eexists. exists (imgur_access_token config), ids, id. eexists.
    split; [rewrite Hnet, app_assoc; reflexivity | exact Hout].
  - intros _. left. split; [reflexivity |]. cbn. now rewrite Hlog, Hn.
  - intro Hz. left. split; [now rewrite <- Hz in * |].
    now rewrite Hlog, Hn.
  - discriminate.
Qed.

(** ** The configuration across runs *)

Lemma imgur_upload_keeps_home (paths : list Path) (config : Config)
      (album : option string) (public0 : bool) (w : World) :
  xdg_config_home (snd (imgur_upload paths config album public0 w))
  = xdg_config_home w.
Proof.
  destruct (imgur_upload_run paths config album public0 w)
    as [[ids [_ Hrun]] | [e [done [_ Hrun]]]].
  - cbv zeta in Hrun.
    destruct (imgur w _ (album_call config ids album public0)) as [id | e];
      rewrite Hrun; cbn [snd]; [| reflexivity].
    match goal with
    | |- xdg_config_home (emit_all ?os ?w0) = _ =>
        destruct (emit_all_spec os w0) as [[Hx _] _]
    end.
    exact Hx.
  - now rewrite Hrun.
Qed.

Lemma proceed_keeps_home (args : Args) (config : Config) (w : World) :
  xdg_config_home (snd (proceed args config w)) = xdg_config_home w.
Proof.
  destruct (proceed_early args config w)
    as [[p [entries [Hp [Hd [Hls Hne]]]]] | [o [w' [Hrun [_ [Ht _]]]]]].
  - rewrite (proceed_gate args config w p entries Hp Hd Hls Hne). cbv zeta.
    set (paths := filter is_image_path (Natsort.natsorted entries)).
    destruct (emit_all_spec (announcement paths) w) as [Ha _].
    destruct (gate_outcome "Do you want to continue?" (Some false) _
                (emit_all (announcement paths) w) eq_refl) as [Hg _].
    pose proof (terminal_only_trans _ _ _ Ha Hg) as Ht.
    destruct Ht as [Hx _].
    destruct (get_confirmation _ _ _) as [[[] | code | e] w2];
      cbn [fst snd negb] in *; try exact Hx.
    now rewrite imgur_upload_keeps_home.
  - rewrite Hrun. exact (proj1 Ht).
Qed.

(** X12.  A non-empty [--access-token] is kept for the next run however
    the run goes on: behind a configuration that loads and a configuration
    file that can be written, the file holds the new token when the run
    has ended, and [load_config] returns it. *)
Theorem token_kept_for_next_run (args : Args) (w : World) (token : string)
        (config0 : Config) :
  show_config_path args = false ->
  access_token args = Some token ->
  token <> "" ->
  load_config w = (Return config0, w) ->
  fs_write_error w (config_path_of w) = None ->
  let w' := snd (main args w) in
  fs_file w' (config_path_of w') = token_file token
  /\ load_config w' = (Return (mkConfig (Json.PStr (Json.ustr_of token))), w').
Proof.
  intros Hshow Htok Hne Hload Hwr w'.
  assert (Hfile : fs_file w' (config_path_of w') = token_file token).
  { unfold w'. rewrite (main_halves args w Hshow). unfold bind.
    rewrite configure_eq, Hload, Htok, Hwr.
    destruct (String.eqb_spec token ""); [contradiction |]. cbn [negb].
    unfold config_path_of.
    rewrite proceed_keeps_home, proceed_keeps_files.
    cbn. now rewrite String.eqb_refl. }
  split; [exact Hfile | exact (stored_token_loads token w' Hfile)].
Qed.

(** X13.  A configuration file whose text is JSON of another shape, a
    value that is no object or an object with a key that is no field, is
    not reported as unreadable: [load_config] lets the [TypeError] pass,
    and [main] ends with it before anything is printed, read or sent. *)
Theorem wrong_shape_config_raises (args : Args) (w : World) (text : string)
        (v : Json.pyval) :
  show_config_path args = false ->
  fs_file w (config_path_of w) = Content text ->
  Json.loads text = Json.Loaded v ->
  (forall items, v = Json.PDict items ->
                 exists k x, In (k, x) items /\ k <> token_key) ->
  exists msg,
    load_config w = (Raise (TypeError msg), w)
    /\ main args w = (Raise (TypeError msg), w).
Proof.
  intros Hshow Hf Hl Hshape.
  assert (Hload : exists msg, load_config w = (Raise (TypeError msg), w)).
  { rewrite load_config_eq, Hf, Hl.
    destruct v; try (eexists; reflexivity).
    destruct (Hshape items eq_refl) as [k [x [Hin Hk]]].
    unfold Config_init.
    destruct (forallb _ items) eqn:Hall; [| eexists; reflexivity].
    rewrite forallb_forall in Hall. specialize (Hall _ Hin).
    apply ustr_eqb_eq in Hall. contradiction. }
  destruct Hload as [msg Hload]. exists msg. split; [exact Hload |].
  rewrite (main_halves args w Hshow). unfold bind.
  now rewrite configure_eq, Hload.
Qed.

(** X14.  A new token that cannot be stored ends the run: with a
    non-empty [--access-token] and a configuration file that cannot be
    written, [main] ends with the [OSError] of the write, and has printed,
    read and sent nothing. *)
Theorem unwritable_config_raises (args : Args) (w : World) (token msg : string)
        (config0 : Config) :
  show_config_path args = false ->
  access_token args = Some token ->
  token <> "" ->
  load_config w = (Return config0, w) ->
  fs_write_error w (config_path_of w) = Some msg ->
  main args w = (Raise (OSError msg), w).
Proof.
  intros Hshow Htok Hne Hload Hwr.
  rewrite (main_halves args w Hshow). unfold bind.
  rewrite configure_eq, Hload, Htok, Hwr.
  now destruct (String.eqb_spec token "").
Qed.

(** X15.  A directory that cannot be listed: the run ends with exit
    status 1 and is quiet.  When the configuration phase has passed, the
    run ends with the [OSError] of the listing and prints nothing. *)
Theorem unlistable_directory_raises (args : Args) (w : World) (p msg : string) :
  show_config_path args = false ->
  dir_path args = Some p ->
  fs_is_dir w p = true ->
  fs_iterdir w p = ListError msg ->
  let run := main args w in
  exit_status (fst run) = 1%Z
  /\ quiet w (snd run)
  /\ (forall config w1,
         configure args w = (Return config, w1) ->
         run = (Raise (OSError msg), w1)).
Proof.
  intros Hshow Hp Hd Hls run. unfold run. rewrite (main_halves args w Hshow).
  unfold bind.
  destruct (configure_quiet args w) as [o [w1 [Heq [Hq [Hdir [Hiter Ho]]]]]].
  rewrite Heq.
  assert (Hrun : forall config,
             proceed args config w1 = (Raise (OSError msg), w1)).
  { intro config. unfold proceed, bind at 1, Path_new. rewrite Hp. cbn [ret].
    unfold bind at 1, is_dir. rewrite Hdir, Hd. cbn [negb].
    unfold bind at 1, get_image_paths, bind, iterdir. rewrite Hiter, Hls.
    reflexivity. }
  destruct o as [config | code | e].
  - rewrite Hrun. split; [reflexivity |]. split; [exact Hq |].
    intros config' w1' H. now injection H as _ <-.
  - subst code. split; [reflexivity |]. split; [exact Hq |].
    intros config' w1' H. discriminate H.
  - split; [reflexivity |]. split; [exact Hq |].
    intros config' w1' H. discriminate H.
Qed.

(** ** Names, suffixes and titles *)

Lemma has_slash_app (a b : string) :
  has_slash (a ++ String slash b) = true.
Proof.
  induction a as [| c a IH]; cbn [append has_slash].
  - reflexivity.
  - rewrite IH. apply orb_true_r.
Qed.

Lemma name_no_slash (nm : string) : has_slash nm = false -> name nm = nm.
Proof. destruct nm as [| c r]; [reflexivity |]. cbn [name]. now intros ->. Qed.

(** The name of a directory entry. *)
Lemma name_join (d nm : string) :
  has_slash nm = false -> name (d ++ String slash nm) = nm.
Proof.
  intro H. induction d as [| c d IH].
  - cbn [append name has_slash]. rewrite H. cbn. now apply name_no_slash.
  - cbn [append name]. change (String c (d ++ String slash nm))
      with (String c d ++ String slash nm) at 1.
    now rewrite has_slash_app.
Qed.

Lemma rfind_last_dot (base ext : string) :
  Text.rfind dot ext = None ->
  Text.rfind dot (base ++ String dot ext) = Some (String.length base).
Proof.
  intro H. induction base as [| c base IH]; cbn [append Text.rfind].
  - now rewrite H.
  - now rewrite IH.
Qed.

Lemma rfind_none_app (a b : string) :
  Text.rfind dot a = None -> Text.rfind dot b = None ->
  Text.rfind dot (a ++ b) = None.
Proof.
  intros Ha Hb. induction a as [| c a IH]; cbn [append Text.rfind] in *;
    [exact Hb |].
  destruct (Text.rfind dot a); [discriminate |].
  rewrite (IH eq_refl). exact Ha.
Qed.

Lemma drop_app_length (a b : string) : Text.drop (String.length a) (a ++ b) = b.
Proof. induction a as [| c a IH]; [now destruct b | exact IH]. Qed.

Lemma take_app_length (a b : string) : Text.take (String.length a) (a ++ b) = a.
Proof.
  induction a as [| c a IH]; cbn; [now destruct b | now rewrite IH].
Qed.

Lemma length_append (a b : string) :
  String.length (a ++ b) = String.length a + String.length b.
Proof. induction a as [| c a IH]; cbn; [reflexivity | now rewrite IH]. Qed.

(** X16.  An entry [base.ext] of a directory, with a base name and an
    extension that has no further dot, has the suffix [.ext] and the stem
    [base].  It is an image exactly when [ext], in any letter case, is
    [jpg], [jpeg], [png] or [gif], and its upload is titled and described
    [base]. *)
Theorem image_entry_title (w : World) (token : Json.pyval)
        (d base ext : string) :
  has_slash base = false ->
  has_slash ext = false ->
  Text.rfind dot ext = None ->
  base <> "" ->
  ext <> "" ->
  let path := d ++ "/" ++ base ++ "." ++ ext in
  name path = base ++ "." ++ ext
  /\ suffix path = "." ++ ext
  /\ stem path = base
  /\ (is_image_path path = true
      <-> In (Text.lower ext) ["jpg"; "jpeg"; "png"; "gif"])
  /\ upload_call token w path
     = ImageUpload token (fs_absolute w path) base base.
Proof.
  intros Hb He Hdot Hbase Hext path.
  assert (Hslash : has_slash (base ++ String dot ext) = false).
  { clear - Hb He. induction base as [| c base IH]; cbn [append has_slash].
    - exact He.
    - cbn [has_slash] in Hb. apply orb_false_iff in Hb as [Hc Hb].
      now rewrite Hc, IH. }
  assert (Hname : name path = base ++ String dot ext).
  { exact (name_join d _ Hslash). }
  assert (Hlen : (0 <? String.length base)%nat
                 && (String.length base
                     <? String.length (base ++ String dot ext) - 1)%nat
                 = true).
  { apply andb_true_iff. split; apply Nat.ltb_lt.
    - destruct base; [contradiction | cbn; lia].
    - rewrite length_append. destruct ext; [contradiction | cbn; lia]. }
  assert (Hsuf : suffix path = String dot ext).
  { unfold suffix. rewrite Hname, (rfind_last_dot base ext Hdot), Hlen.
    apply drop_app_length. }
  assert (Hstem : stem path = base).
  { unfold stem. rewrite Hname, (rfind_last_dot base ext Hdot), Hlen.
    apply take_app_length. }
  split; [exact Hname |]. split; [exact Hsuf |]. split; [exact Hstem |].
  split.
  - rewrite is_image_path_spec, Hsuf.
    change (Text.lower (String dot ext)) with (String dot (Text.lower ext)).
    unfold image_suffixes. cbn [In]. split.
    + intros [H | [H | [H | [H | []]]]]; injection H as H; auto.
    + intros [H | [H | [H | [H | []]]]]; rewrite <- H; auto.
  - unfold upload_call. now rewrite Hstem.
Qed.

(** X17.  Names without a suffix are never images: a name without a dot,
    a name whose only dot stands first, as [.png], and a name whose only
    dot stands last. *)
Theorem names_without_suffix_skipped (d nm : string) :
  has_slash nm = false ->
  Text.rfind dot nm = None ->
  is_image_path (d ++ "/" ++ nm) = false
  /\ is_image_path (d ++ "/" ++ "." ++ nm) = false
  /\ is_image_path (d ++ "/" ++ nm ++ ".") = false.
Proof.
  intros Hs Hdot.
  assert (Hno : forall p, suffix p = "" -> is_image_path p = false).
  { intros p H. unfold is_image_path. now rewrite H. }
  assert (Hs' : has_slash (nm ++ ".") = false).
  { clear - Hs. induction nm as [| c nm IH]; cbn [append has_slash];
      [reflexivity |].
    cbn [has_slash] in Hs. apply orb_false_iff in Hs as [Hc Hs].
    now rewrite Hc, IH. }
  assert (H1 : name (d ++ "/" ++ nm) = nm) by exact (name_join d nm Hs).
  assert (H2 : name (d ++ "/" ++ "." ++ nm) = String dot nm)
    by exact (name_join d (String dot nm) Hs).
  assert (H3 : name (d ++ "/" ++ nm ++ ".") = nm ++ ".")
    by exact (name_join d (nm ++ ".") Hs').
  split; [| split]; apply Hno; unfold suffix.
  - rewrite H1, Hdot. reflexivity.
  - rewrite H2. cbn [Text.rfind]. rewrite Hdot. reflexivity.
  - rewrite H3. change (nm ++ ".") with (nm ++ String dot "").
    rewrite (rfind_last_dot nm "" eq_refl), length_append.
    cbn [String.length].
    replace (String.length nm + 1 - 1) with (String.length nm) by lia.
    rewrite Nat.ltb_irrefl, andb_false_r. reflexivity.
Qed.

(** ** Discovery and the order of the listing *)




(** ** The further properties at work *)

Lemma rejected_test (default : option bool) (line : string) :
  Text.startswith (Text.strip (Text.lower line)) "y" = false ->
  Text.startswith (Text.strip (Text.lower line)) "n" = false ->
  (String.eqb line "" && match default with Some _ => true | None => false end
   = false)%bool ->
  rejected default line.
Proof.
  intros Hy Hn He. repeat split.
  - intro H. apply says_yes_test in H. congruence.
  - intro H. apply says_no_test in H. congruence.
  - destruct (String.eqb_spec line ""); [| now left].
    destruct default; [discriminate He | now right].
Qed.

Lemma get_confirmation_first_answer_witness :
  exists w',
    get_confirmation "Do you want to continue?" (Some false)
                     (home_world ["maybe"; " "; "No"; "y"])
    = (Return false, w')
    /\ stdin w' = ["y"].
Proof.
  destruct (get_confirmation_first_answer "Do you want to continue?"
              (Some false) "No" ["y"] false ["maybe"; " "]
              (home_world ["maybe"; " "; "No"; "y"]) eq_refl)
    as [w' [Hrun [Hin _]]].
  - repeat (apply Forall_cons; [now apply rejected_test |]).
    apply Forall_nil.
  - right. left. split; [| reflexivity]. now apply says_no_test.
  - exists w'. split; [exact Hrun | exact Hin].
Defined.

Lemma get_confirmation_runs_dry_witness :
  fst (get_confirmation "Do you want to continue?" (Some false)
                        (home_world ["maybe"; " "]))
  = Raise EOFError.
Proof.
  destruct (get_confirmation_runs_dry "Do you want to continue?" (Some false)
              ["maybe"; " "] (home_world ["maybe"; " "]) eq_refl)
    as [w' [Hrun _]].
  - repeat (apply Forall_cons; [now apply rejected_test |]).
    apply Forall_nil.
  - now rewrite Hrun.
Defined.

Lemma blank_line_is_no_answer_witness : rejected (Some true) "  ".
Proof.
  exact (proj1 (blank_line_is_no_answer "Do you want to continue?" (Some true)
                  (home_world ["  "; "y"]) "  " ["y"] eq_refl eq_refl
                  ltac:(discriminate))).
Defined.

Lemma imgur_upload_without_files_witness :
  net_log (snd (imgur_upload ["pics/photo.jpg"] Config_default
                             (Some "Chapter 1") false (home_world [])))
  = [(AlbumCreate (Json.PStr []) [] (Some "Chapter 1") "" "hidden",
      ApiOk "id0")].
Proof.
  refine (imgur_upload_without_files ["pics/photo.jpg"] Config_default
            (Some "Chapter 1") false (home_world []) _).
  intros p [<- | []]. reflexivity.
Defined.

Lemma no_request_without_yes_witness :
  net_log (snd (main (upload_args "pics" None) (home_world ["maybe"; "n"])))
  = [].
Proof.
  refine (no_request_without_yes (upload_args "pics" None)
            (home_world ["maybe"; "n"]) _).
  intros line [<- | [<- | []]] H; apply says_yes_test in H; discriminate H.
Defined.

Lemma main_writes_config_only_witness :
  fs_file (snd (main (upload_args "pics" (Some "secret")) (home_world ["y"])))
          "pics/img1.png"
  = Absent.
Proof.
  refine (main_writes_config_only (upload_args "pics" (Some "secret"))
            (home_world ["y"]) "pics/img1.png" _).
  left. discriminate.
Defined.

Lemma missing_dir_path_raises_witness :
  exit_status (fst (main (mkArgs None None None false false) (home_world [])))
  = 1%Z.
Proof.
  exact (proj1 (missing_dir_path_raises (mkArgs None None None false false)
                  (home_world []) eq_refl eq_refl)).
Defined.



Lemma success_means_album_or_abort_witness :
  let run := main (upload_args "album" None) album_world in
  (fst run = Exit 0 /\ net_log (snd run) = [])
  \/ (fst run = Return tt
      /\ exists log token ids album_id out,
          net_log (snd run)
          = (log ++ [(AlbumCreate token ids (Some "Chapter 1") "" "hidden",
                      ApiOk album_id)])%list
          /\ stdout (snd run) = (out ++ album_report album_id)%list).
Proof.
  exact (success_means_album_or_abort (upload_args "album" None) album_world
           eq_refl eq_refl).
Defined.

Lemma token_kept_for_next_run_witness :
  let w' := snd (main (upload_args "pics" (Some "secret")) (home_world ["y"]))
  in
  load_config w' = (Return (mkConfig (Json.PStr (Json.ustr_of "secret"))), w').
Proof.
  exact (proj2 (token_kept_for_next_run (upload_args "pics" (Some "secret"))
                  (home_world ["y"]) "secret" Config_default
                  eq_refl eq_refl ltac:(discriminate) eq_refl eq_refl)).
Defined.

Lemma wrong_shape_config_raises_witness :
  let w := home_with_config stale_config_text ["y"] in
  exists msg, main (upload_args "pics" None) w = (Raise (TypeError msg), w).
Proof.
  destruct (wrong_shape_config_raises (upload_args "pics" None)
              (home_with_config stale_config_text ["y"]) stale_config_text
              (Json.PDict [(Json.ustr_of "access_token",
                            Json.PStr (Json.ustr_of "abc123"))])
              eq_refl eq_refl)
    as [msg [_ Hrun]].
  - vm_compute. reflexivity.
  - intros items H. injection H as <-.
    exists (Json.ustr_of "access_token"), (Json.PStr (Json.ustr_of "abc123")).
    split; [now left | vm_compute; discriminate].
  - exists msg. exact Hrun.
Defined.

Lemma unwritable_config_raises_witness :
  main (upload_args "pics" (Some "secret")) (locked_home ["y"])
  = (Raise (OSError "Permission denied"), locked_home ["y"]).
Proof.
  exact (unwritable_config_raises (upload_args "pics" (Some "secret"))
           (locked_home ["y"]) "secret" "Permission denied" Config_default
           eq_refl eq_refl ltac:(discriminate) eq_refl eq_refl).
Defined.

Lemma unlistable_directory_raises_witness :
  main (upload_args "locked" None) (locked_home ["y"])
  = (Raise (OSError "Permission denied"), locked_home ["y"]).
Proof.
  destruct (unlistable_directory_raises (upload_args "locked" None)
              (locked_home ["y"]) "locked" "Permission denied"
              eq_refl eq_refl eq_refl eq_refl)
    as [_ [_ H]].
  exact (H Config_default (locked_home ["y"]) eq_refl).
Defined.

Lemma image_entry_title_witness :
  is_image_path "pics/Cover.JPEG" = true
  /\ upload_call (Json.PStr []) (home_world []) "pics/Cover.JPEG"
     = ImageUpload (Json.PStr []) "/home/u/pics/Cover.JPEG" "Cover" "Cover".
Proof.
  destruct (image_entry_title (home_world []) (Json.PStr []) "pics" "Cover"
              "JPEG" eq_refl eq_refl eq_refl ltac:(discriminate)
              ltac:(discriminate))
    as [_ [_ [_ [Himg Hcall]]]].
  split; [| exact Hcall].
  apply Himg. cbn. auto.
Defined.

Lemma names_without_suffix_skipped_witness :
  is_image_path "pics/.png" = false.
Proof.
  exact (proj1 (proj2 (names_without_suffix_skipped "pics" "png"
                         eq_refl eq_refl))).
Defined.

